(** * Canvas Accessibility Auditor: a shallow embedding of [content.js]

    The content script scans a rendered document for three kinds of
    accessibility defects (images without alternative text, skipped heading
    levels, light text on a light background) and mounts a report panel.

    JavaScript strings are sequences of UTF-16 code units, modelled as
    [list N]; JavaScript numbers are IEEE 754 binary64 values, modelled with
    the primitive floats of the kernel wherever a fractional value can occur
    and with [Z] where the script only manipulates small integers. *)

From Stdlib Require Import ZArith NArith List String Ascii Bool Lia Floats.
From Stdlib Require Import DecimalString.
Import ListNotations.

Set Warnings "-inexact-float,-register-all".
Set Implicit Arguments.

(* ------------------------------------------------------------------ *)
(** ** JavaScript strings                                              *)
(* ------------------------------------------------------------------ *)

Definition jsstring := list N.

(** A string literal of the script (all literals of the script are ASCII). *)
Definition js (s : string) : jsstring :=
  map N_of_ascii (list_ascii_of_string s).

Fixpoint jsstring_eqb (a b : jsstring) : bool :=
  match a, b with
  | [], [] => true
  | x :: a', y :: b' => N.eqb x y && jsstring_eqb a' b'
  | _, _ => false
  end.

(** ECMAScript [WhiteSpace] and [LineTerminator] code points: the set that
    [String.prototype.trim] strips and that [\s] matches. *)
Definition isWhiteSpace (c : N) : bool :=
  ((c =? 9) || (c =? 10) || (c =? 11) || (c =? 12) || (c =? 13) || (c =? 32)
   || (c =? 160) || (c =? 5760) || ((8192 <=? c) && (c <=? 8202))
   || (c =? 8232) || (c =? 8233) || (c =? 8239) || (c =? 8287)
   || (c =? 12288) || (c =? 65279))%N.

(** [\d]: the ASCII digits only. *)
Definition isDigit (c : N) : bool := ((48 <=? c) && (c <=? 57))%N.

Fixpoint trimStart (s : jsstring) : jsstring :=
  match s with
  | c :: s' => if isWhiteSpace c then trimStart s' else s
  | [] => []
  end.

Definition trimEnd (s : jsstring) : jsstring := rev (trimStart (rev s)).

Definition trim (s : jsstring) : jsstring := trimEnd (trimStart s).

(** [s.charAt(i)]: the one-unit string at index [i], or the empty string. *)
Definition charAt (s : jsstring) (i : nat) : jsstring :=
  match nth_error s i with
  | Some c => [c]
  | None => []
  end.

(* ------------------------------------------------------------------ *)
(** ** JavaScript numbers                                              *)
(* ------------------------------------------------------------------ *)

(** The Number value of a mathematical integer: the nearest binary64 value,
    ties to even. *)
Definition Z2float (z : Z) : float :=
  SF2Prim (binary_normalize 53 1024 z 0 false).

(** Value of a character as a digit of the given radix. *)
Definition digitVal (radix : Z) (c : N) : option Z :=
  let v :=
    if ((48 <=? c) && (c <=? 57))%N then Some (Z.of_N c - 48)%Z
    else if ((97 <=? c) && (c <=? 122))%N then Some (Z.of_N c - 97 + 10)%Z
    else if ((65 <=? c) && (c <=? 90))%N then Some (Z.of_N c - 65 + 10)%Z
    else None in
  match v with
  | Some d => if (d <? radix)%Z then Some d else None
  | None => None
  end.

(** The mathematical integer denoted by the longest prefix of radix digits;
    [acc] is [None] as long as no digit has been read. *)
Fixpoint digitsPrefix (radix : Z) (s : jsstring) (acc : option Z) : option Z :=
  match s with
  | c :: s' =>
      match digitVal radix c with
      | Some d =>
          digitsPrefix radix s'
            (Some (radix * match acc with Some a => a | None => 0 end + d)%Z)
      | None => acc
      end
  | [] => acc
  end.

(** [parseInt(s)] with no radix argument.  [None] stands for NaN; the result
    is the mathematical integer that the call converts to a Number (the sign
    of a zero result is not tracked). *)
Definition parseInt (s : jsstring) : option Z :=
  let s0 := trimStart s in
  let '(neg, s1) :=
    match s0 with
    | 45%N :: r => (true, r)
    | 43%N :: r => (false, r)
    | _ => (false, s0)
    end in
  let '(radix, s2) :=
    match s1 with
    | 48%N :: 120%N :: r => (16%Z, r)
    | 48%N :: 88%N :: r => (16%Z, r)
    | _ => (10%Z, s1)
    end in
  match digitsPrefix radix s2 None with
  | Some m => Some (if neg then (- m)%Z else m)
  | None => None
  end.

(** The Number a [parseInt] result stands for. *)
Definition toNumber (n : option Z) : float :=
  match n with
  | Some z => Z2float z
  | None => nan
  end.

(* ------------------------------------------------------------------ *)
(** ** The regular expression of [parseRgb]                            *)
(* ------------------------------------------------------------------ *)

(** The constructs that occur in
    [/rgba?\(\s*(\d+)\s*,\s*(\d+)\s*,\s*(\d+)/]. *)
Inductive RegexItem : Type :=
| Lit (c : N)                        (* a literal character *)
| OptLit (c : N)                     (* [c?], greedy *)
| StarClass (p : N -> bool)          (* [\s*], greedy *)
| GroupPlus (p : N -> bool).         (* [(\d+)], greedy and capturing *)

(** Greedy star with backtracking: the longest run first, then shorter ones. *)
Fixpoint starBt {A} (p : N -> bool) (k : jsstring -> option A)
  (s : jsstring) : option A :=
  match s with
  | c :: s' =>
      if p c then
        match starBt p k s' with
        | Some r => Some r
        | None => k s
        end
      else k s
  | [] => k []
  end.

(** Greedy capturing plus with backtracking; [taken] is the text captured so
    far. *)
Fixpoint plusBt {A} (p : N -> bool) (k : jsstring -> jsstring -> option A)
  (taken s : jsstring) : option A :=
  match s with
  | c :: s' =>
      if p c then
        match plusBt p k (taken ++ [c]) s' with
        | Some r => Some r
        | None => k (taken ++ [c]) s'
        end
      else None
  | [] => None
  end.

(** Match the items at the start of [s]; the result lists the captured
    groups in order. *)
Fixpoint matchHere (items : list RegexItem) (caps : list jsstring)
  (s : jsstring) : option (list jsstring) :=
  match items with
  | [] => Some caps
  | Lit c :: rest =>
      match s with
      | x :: s' => if N.eqb x c then matchHere rest caps s' else None
      | [] => None
      end
  | OptLit c :: rest =>
      match s with
      | x :: s' =>
          if N.eqb x c then
            match matchHere rest caps s' with
            | Some r => Some r
            | None => matchHere rest caps s
            end
          else matchHere rest caps s
      | [] => matchHere rest caps []
      end
  | StarClass p :: rest => starBt p (matchHere rest caps) s
  | GroupPlus p :: rest =>
      plusBt p (fun g s' => matchHere rest (caps ++ [g]) s') [] s
  end.

(** [str.match(re)] for a regular expression without the global flag: the
    leftmost position at which the expression matches.  The result holds the
    captured groups, so that [match[k]] is [matchGroup k]. *)
Fixpoint String_match (items : list RegexItem) (s : jsstring)
  : option (list jsstring) :=
  match matchHere items [] s with
  | Some r => Some r
  | None =>
      match s with
      | [] => None
      | _ :: s' => String_match items s'
      end
  end.

Definition matchGroup (k : nat) (m : list jsstring) : jsstring :=
  nth (k - 1) m [].

Definition rgbRegex : list RegexItem :=
  [ Lit 114; Lit 103; Lit 98; OptLit 97; Lit 40;
    StarClass isWhiteSpace; GroupPlus isDigit; StarClass isWhiteSpace; Lit 44;
    StarClass isWhiteSpace; GroupPlus isDigit; StarClass isWhiteSpace; Lit 44;
    StarClass isWhiteSpace; GroupPlus isDigit ]%N.

(* ------------------------------------------------------------------ *)
(** ** Colour model: [parseRgb] and [getLuminance]                     *)
(* ------------------------------------------------------------------ *)

Definition parseRgb (colorStr : jsstring) : list float :=
  match String_match rgbRegex colorStr with
  | None => [1; 1; 1]%float
  | Some m =>
      [ toNumber (parseInt (matchGroup 1 m)) / 255;
        toNumber (parseInt (matchGroup 2 m)) / 255;
        toNumber (parseInt (matchGroup 3 m)) / 255 ]%float
  end.

Section Luminance.

(** [Math.pow] is a built-in of the host whose result is only specified up
    to an approximation; it is a parameter of the development. *)
Variable Math_pow : float -> float -> float.

(** The per-channel sRGB transfer function (the callback of [rgb.map]). *)
Definition transfer (val : float) : float :=
  (if val <=? 0.03928 then val / 12.92
   else Math_pow ((val + 0.055) / 1.055) 2.4)%float.

Definition getLuminance (colorStr : jsstring) : float :=
  let rgb := parseRgb colorStr in
  let adjusted := map transfer rgb in
  (0.2126 * nth 0 adjusted nan + 0.7152 * nth 1 adjusted nan
   + 0.0722 * nth 2 adjusted nan)%float.


End Luminance.

(* ------------------------------------------------------------------ *)
(** ** The document                                                    *)
(* ------------------------------------------------------------------ *)

(** Element types the selectors of the script tell apart. *)
Inductive Tag : Type :=
| IMG | H1 | H2 | H3 | H4 | H5 | H6
| P | SPAN | A | LI | TD | TH | LABEL | DIV
| OTHER (name : jsstring).

(** [el.localName] *)
Definition localName (t : Tag) : jsstring :=
  match t with
  | IMG => js "img"
  | H1 => js "h1" | H2 => js "h2" | H3 => js "h3"
  | H4 => js "h4" | H5 => js "h5" | H6 => js "h6"
  | P => js "p" | SPAN => js "span" | A => js "a" | LI => js "li"
  | TD => js "td" | TH => js "th" | LABEL => js "label" | DIV => js "div"
  | OTHER name => name
  end.

(** Upper case of the ASCII letters (element names are ASCII). *)
Definition toUpperCase (s : jsstring) : jsstring :=
  map (fun c => if ((97 <=? c) && (c <=? 122))%N then (c - 32)%N else c) s.

(** [el.tagName] of an element without a namespace prefix: the name in
    upper case in an HTML document ([html = true]), and the name as it is
    written in an XML document. *)
Definition tagName (html : bool) (t : Tag) : jsstring :=
  if html then toUpperCase (localName t) else localName t.

(** The two properties of [window.getComputedStyle(el)] the script reads. *)
Record ComputedStyle : Type := mkComputedStyle {
  color : jsstring;
  backgroundColor : jsstring
}.

(** An element with the properties the scans read.  The chain of
    [parentElement] links is part of the value, so it is finite. *)
Inductive Element : Type := mkElement {
  nodeId : nat;                          (* object identity *)
  tag : Tag;
  alt : option jsstring;                 (* [getAttribute("alt")], null = None *)
  src : jsstring;                        (* [img.src], empty when absent *)
  offsetParent : option nat;             (* null = None *)
  textContent : jsstring;
  getComputedStyle : ComputedStyle;
  parentElement : option Element         (* null = None *)
}.

Record Document : Type := mkDocument {
  isHTMLDocument : bool;                 (* an HTML or an XML document *)
  documentElement : Element;
  allElements : list Element             (* every element, in document order *)
}.

(** [document.querySelectorAll] for a selector that is a list of type
    selectors: the matching elements in document order. *)
Definition querySelectorAll (sel : Tag -> bool) (doc : Document)
  : list Element :=
  filter (fun e => sel (tag e)) (allElements doc).

Definition sel_img (t : Tag) : bool :=
  match t with IMG => true | _ => false end.

Definition sel_headings (t : Tag) : bool :=
  match t with H1 | H2 | H3 | H4 | H5 | H6 => true | _ => false end.

Definition sel_text (t : Tag) : bool :=
  match t with
  | P | SPAN | A | LI | TD | TH | LABEL | DIV
  | H1 | H2 | H3 | H4 | H5 | H6 => true
  | _ => false
  end.

(** The objects the scans push onto [results]. *)
Inductive Issue : Type :=
| AltIssue (element : Element) (src : jsstring)
| HeadingIssue (element : Element) (current previous : jsstring)
| ContrastIssue (element : Element) (color bg : jsstring).

Definition element (i : Issue) : Element :=
  match i with
  | AltIssue e _ => e
  | HeadingIssue e _ _ => e
  | ContrastIssue e _ _ => e
  end.

(* ------------------------------------------------------------------ *)
(** ** Scan 1: images missing alt text                                 *)
(* ------------------------------------------------------------------ *)

(** [altValue === null || altValue.trim() === ""] *)
Definition missingAlt (img : Element) : bool :=
  match alt img with
  | None => true
  | Some altValue => jsstring_eqb (trim altValue) []
  end.

(** [img.src || "(no src)"]: the empty string is the only falsy string. *)
Definition srcOrPlaceholder (img : Element) : jsstring :=
  match src img with
  | [] => js "(no src)"
  | _ => src img
  end.

Definition altStep (results : list Issue) (img : Element) : list Issue :=
  if missingAlt img then results ++ [AltIssue img (srcOrPlaceholder img)]
  else results.

Definition checkAltText (doc : Document) : list Issue :=
  fold_left altStep (querySelectorAll sel_img doc) [].

(* ------------------------------------------------------------------ *)
(** ** Scan 2: heading hierarchy                                       *)
(* ------------------------------------------------------------------ *)

(** Decimal notation of an integer Number; NaN prints as its name. *)
Definition numToString (n : option Z) : jsstring :=
  match n with
  | Some z => js (NilZero.string_of_int (Z.to_int z))
  | None => js "NaN"
  end.

(** [n !== 0] *)
Definition notZero (n : option Z) : bool :=
  match n with
  | Some 0%Z => false
  | _ => true
  end.

(** [a > b + 1]; a comparison with NaN is false. *)
Definition exceedsByMoreThanOne (a b : option Z) : bool :=
  match a, b with
  | Some x, Some y => (y + 1 <? x)%Z
  | _, _ => false
  end.

(** The loop state of [checkHeadings]: [results] and [lastLevel]. *)
Definition HeadingState : Type := (list Issue * option Z)%type.

Section HeadingScan.

(** Whether the scanned document is an HTML document. *)
Variable html : bool.

Definition headingStep (st : HeadingState) (h : Element) : HeadingState :=
  let '(results, lastLevel) := st in
  let level := parseInt (charAt (tagName html (tag h)) 1) in
  let results' :=
    if notZero lastLevel && exceedsByMoreThanOne level lastLevel then
      results ++ [HeadingIssue h (tagName html (tag h))
                    (js "H" ++ numToString lastLevel)]
    else results in
  (results', level).

Definition headingLoop (headings : list Element) : HeadingState :=
  fold_left headingStep headings ([], Some 0%Z).

End HeadingScan.

Definition checkHeadings (doc : Document) : list Issue :=
  fst (headingLoop (isHTMLDocument doc) (querySelectorAll sel_headings doc)).

(* ------------------------------------------------------------------ *)
(** ** Scan 3: contrast                                                *)
(* ------------------------------------------------------------------ *)

Definition white : jsstring := js "rgb(255, 255, 255)".

(** [bg && bg !== "rgba(0, 0, 0, 0)" && bg !== "transparent"] *)
Definition notTransparent (bg : jsstring) : bool :=
  negb (jsstring_eqb bg [])
  && negb (jsstring_eqb bg (js "rgba(0, 0, 0, 0)"))
  && negb (jsstring_eqb bg (js "transparent")).

(** The [while] loop of [getBackgroundColor], entered with a non-null
    [current]; [root] is the identity of [document.documentElement]. *)
Fixpoint walkBackground (root : nat) (current : Element) : jsstring :=
  if Nat.eqb (nodeId current) root then white
  else
    let bg := backgroundColor (getComputedStyle current) in
    if notTransparent bg then bg
    else
      match parentElement current with
      | Some parent => walkBackground root parent
      | None => white
      end.

Definition getBackgroundColor (doc : Document) (el : Element) : jsstring :=
  walkBackground (nodeId (documentElement doc)) el.

Section Contrast.

Variable Math_pow : float -> float -> float.

(** [textLuminance > 0.7 && bgLuminance > 0.9] *)
Definition lightOnLight (textLuminance bgLuminance : float) : bool :=
  ((0.7 <? textLuminance) && (0.9 <? bgLuminance))%float.

Definition contrastStep (doc : Document) (results : list Issue)
  (el : Element) : list Issue :=
  match offsetParent el with
  | None => results
  | Some _ =>
      if jsstring_eqb (trim (textContent el)) [] then results
      else
        let styles := getComputedStyle el in
        let textColor := color styles in
        let bgColor := getBackgroundColor doc el in
        let textLuminance := getLuminance Math_pow textColor in
        let bgLuminance := getLuminance Math_pow bgColor in
        if lightOnLight textLuminance bgLuminance then
          results ++ [ContrastIssue el textColor bgColor]
        else results
  end.

Definition checkContrast (doc : Document) : list Issue :=
  fold_left (contrastStep doc) (querySelectorAll sel_text doc) [].

(** [totalIssues] *)
Definition totalIssues (doc : Document) : nat :=
  List.length (checkAltText doc) + List.length (checkHeadings doc)
  + List.length (checkContrast doc).

End Contrast.

(* ------------------------------------------------------------------ *)
(** ** The highlighter                                                 *)
(* ------------------------------------------------------------------ *)

Module Highlighter.

(** The two properties of the inline style [el.style] that
    [highlightElement] reads and writes, each as the string the script last
    read from it or wrote to it.  How the browser expands the [outline]
    shorthand into longhands, drops a priority or reserialises a value is
    not part of the model. *)
Record InlineStyle : Type := mkInlineStyle {
  outline : jsstring;
  backgroundColor : jsstring
}.

(** A pending [setTimeout] callback: the closure of the anonymous function
    holds [el], [oldOutline] and [oldBg]. *)
Record Timer : Type := mkTimer {
  due : Z;                   (* time at which the host runs it, in ms *)
  el : nat;
  oldOutline : jsstring;
  oldBg : jsstring
}.

(** The part of the page the highlighter acts on.  Elements are named by
    their identity; an element removed from the document keeps its style
    object. *)
Record Page : Type := mkPage {
  now : Z;
  style : nat -> InlineStyle;
  inDocument : nat -> bool;
  timers : list Timer;                (* in the order they were set *)
  scrolledTo : list nat               (* calls of [scrollIntoView] *)
}.

Definition setStyle (e : nat) (s : InlineStyle) (st : nat -> InlineStyle)
  : nat -> InlineStyle :=
  fun x => if Nat.eqb x e then s else st x.

Definition highlight : InlineStyle :=
  {| outline := js "3px solid red";
     backgroundColor := js "rgba(255, 0, 0, 0.1)" |}.

Definition highlightElement (e : nat) (w : Page) : Page :=
  let oldOutline := outline (style w e) in
  let oldBg := backgroundColor (style w e) in
  {| now := now w;
     style := setStyle e highlight (style w);
     inDocument := inDocument w;
     timers := timers w ++ [mkTimer (now w + 2000) e oldOutline oldBg];
     scrolledTo := scrolledTo w ++ [e] |}.

(** The body of the timer callback. *)
Definition restore (w : Page) (t : Timer) : Page :=
  {| now := now w;
     style := setStyle (el t)
                {| outline := oldOutline t; backgroundColor := oldBg t |}
                (style w);
     inDocument := inDocument w;
     timers := timers w;
     scrolledTo := scrolledTo w |}.

Definition isDue (t : Z) (tm : Timer) : bool := (due tm <=? t)%Z.

(** The host lets [dt] milliseconds pass and runs the callbacks that have
    come due.  All timers of the script have the same delay, so the order
    in which they were set is the order in which they come due. *)
Definition elapse (dt : Z) (w : Page) : Page :=
  let t := (now w + dt)%Z in
  fold_left restore (filter (isDue t) (timers w))
    {| now := t;
       style := style w;
       inDocument := inDocument w;
       timers := filter (fun tm => negb (isDue t tm)) (timers w);
       scrolledTo := scrolledTo w |}.

(** The page removes an element from the document. *)
Definition removeElement (e : nat) (w : Page) : Page :=
  {| now := now w;
     style := style w;
     inDocument := fun x => if Nat.eqb x e then false else inDocument w x;
     timers := timers w;
     scrolledTo := scrolledTo w |}.

Inductive Event : Type :=
| Activate (e : nat)          (* a report entry of element [e] is activated *)
| Elapse (dt : Z)
| Remove (e : nat).

Definition step (w : Page) (ev : Event) : Page :=
  match ev with
  | Activate e => highlightElement e w
  | Elapse dt => elapse dt w
  | Remove e => removeElement e w
  end.

Definition run (evs : list Event) (w : Page) : Page := fold_left step evs w.

End Highlighter.

(* ------------------------------------------------------------------ *)
(** ** The entries of a report section                                 *)
(* ------------------------------------------------------------------ *)

Module ReportSection.

(** The activation of [createSection] holds the function-scoped variables
    [i] and [li], shared by all iterations of the loop. *)
Record FunctionScope : Type := mkFunctionScope {
  var_i : nat;
  var_li : option nat                  (* a reference to an [li] object *)
}.

(** An activation of the immediately invoked function: its parameter. *)
Record ClosureScope : Type := mkClosureScope {
  issueElement : Element
}.

(** The two listener functions; each closes over the activation of the
    immediately invoked function that created it. *)
Inductive Handler : Type :=
| ClickHandler (scope : nat)
| KeydownHandler (scope : nat).

Record LiObject : Type := mkLi {
  li_textContent : jsstring;
  clickListeners : list Handler;
  keydownListeners : list Handler
}.

Record Heap : Type := mkHeap {
  fscope : FunctionScope;
  scopes : list ClosureScope;          (* activations, by address *)
  lis : list LiObject;                 (* [li] objects, by address *)
  children : list nat                  (* children of [list], in order *)
}.

Definition emptyHeap : Heap :=
  {| fscope := mkFunctionScope 0 None; scopes := []; lis := [];
     children := [] |}.

(** Replace the object at address [a]. *)
Fixpoint update {A} (l : list A) (a : nat) (f : A -> A) : list A :=
  match l, a with
  | [], _ => []
  | x :: l', O => f x :: l'
  | x :: l', S a' => x :: update l' a' f
  end.

(** [li.addEventListener(type, handler)], where [li] is read from the
    activation of [createSection]. *)
Definition addClick (hd : Handler) (h : Heap) : Heap :=
  match var_li (fscope h) with
  | Some a =>
      {| fscope := fscope h; scopes := scopes h;
         lis := update (lis h) a (fun o =>
                  mkLi (li_textContent o) (clickListeners o ++ [hd])
                    (keydownListeners o));
         children := children h |}
  | None => h
  end.

Definition addKeydown (hd : Handler) (h : Heap) : Heap :=
  match var_li (fscope h) with
  | Some a =>
      {| fscope := fscope h; scopes := scopes h;
         lis := update (lis h) a (fun o =>
                  mkLi (li_textContent o) (clickListeners o)
                    (keydownListeners o ++ [hd]));
         children := children h |}
  | None => h
  end.

(** The immediately invoked function, called with [issues[i].element]. *)
Definition iife (arg : Element) (h : Heap) : Heap :=
  let s := List.length (scopes h) in
  let h1 := {| fscope := fscope h;
               scopes := scopes h ++ [mkClosureScope arg];
               lis := lis h; children := children h |} in
  addKeydown (KeydownHandler s) (addClick (ClickHandler s) h1).

(** One iteration of the loop, with [i] already set. *)
Definition iteration (formatIssueFn : Issue -> jsstring)
  (issues : list Issue) (h : Heap) : Heap :=
  match nth_error issues (var_i (fscope h)) with
  | None => h
  | Some issue =>
      (* var li = document.createElement("li"); li.textContent = ... *)
      let a := List.length (lis h) in
      let h1 := {| fscope := mkFunctionScope (var_i (fscope h)) (Some a);
                   scopes := scopes h;
                   lis := lis h ++ [mkLi (formatIssueFn issue) [] []];
                   children := children h |} in
      let h2 := iife (element issue) h1 in
      (* list.appendChild(li) *)
      match var_li (fscope h2) with
      | Some b =>
          {| fscope := fscope h2; scopes := scopes h2; lis := lis h2;
             children := children h2 ++ [b] |}
      | None => h2
      end
  end.

(** [for (var i = 0; i < issues.length; i++) { ... }] *)
Fixpoint loop (fuel : nat) (formatIssueFn : Issue -> jsstring)
  (issues : list Issue) (h : Heap) : Heap :=
  match fuel with
  | O => h
  | S fuel' =>
      if Nat.ltb (var_i (fscope h)) (List.length issues) then
        let h1 := iteration formatIssueFn issues h in
        loop fuel' formatIssueFn issues
          {| fscope := mkFunctionScope (S (var_i (fscope h1)))
                         (var_li (fscope h1));
             scopes := scopes h1; lis := lis h1; children := children h1 |}
      else h
  end.

(** The list of entries [createSection] builds for a non-empty [issues]. *)
Definition createSection (formatIssueFn : Issue -> jsstring)
  (issues : list Issue) : Heap :=
  loop (List.length issues) formatIssueFn issues emptyHeap.

(** What running a listener does: the elements [highlightElement] is
    called on, and whether [preventDefault] was called.  [key] is
    [e.key]. *)
Definition invoke (h : Heap) (key : jsstring) (hd : Handler)
  : list Element * bool :=
  match hd with
  | ClickHandler s =>
      match nth_error (scopes h) s with
      | Some sc => ([issueElement sc], false)
      | None => ([], false)
      end
  | KeydownHandler s =>
      if jsstring_eqb key (js "Enter") || jsstring_eqb key (js " ") then
        match nth_error (scopes h) s with
        | Some sc => ([issueElement sc], true)
        | None => ([], true)
        end
      else ([], false)
  end.

(** Dispatch a click to the entry at position [k] of the list. *)
Definition click (h : Heap) (k : nat) : list Element :=
  match nth_error (children h) k with
  | Some a =>
      match nth_error (lis h) a with
      | Some o => flat_map (fun hd => fst (invoke h [] hd)) (clickListeners o)
      | None => []
      end
  | None => []
  end.

(** Dispatch a key press to the entry at position [k] of the list. *)
Definition keydown (h : Heap) (k : nat) (key : jsstring) : list Element :=
  match nth_error (children h) k with
  | Some a =>
      match nth_error (lis h) a with
      | Some o =>
          flat_map (fun hd => fst (invoke h key hd)) (keydownListeners o)
      | None => []
      end
  | None => []
  end.

End ReportSection.

(* ------------------------------------------------------------------ *)
(** ** The life cycle of the report panel                              *)
(* ------------------------------------------------------------------ *)

Module Overlay.

(** The part of the page the script's top level acts on.  A panel, its
    style element and its [handleEsc] listener are named by the number of
    the run of the script that created them. *)
Record Page : Type := mkPage {
  panels : list nat;        (* elements with id "a11y-panel", in order *)
  styleEls : list nat;      (* elements with id "a11y-panel-styles" *)
  keydownListeners : list nat;  (* keydown listeners of [document] *)
  focused : option nat;
  runs : nat                (* number of runs so far *)
}.

Definition initial : Page :=
  {| panels := []; styleEls := []; keydownListeners := [];
     focused := None; runs := 0 |}.

Definition removeId (k : nat) (l : list nat) : list nat :=
  filter (fun x => negb (Nat.eqb x k)) l.

(** The focus after panel [k] has left the document: a removed element
    loses the focus. *)
Definition blur (k : nat) (f : option nat) : option nat :=
  match f with
  | Some x => if Nat.eqb x k then None else Some x
  | None => None
  end.

(** One run of the content script. *)
Definition runScript (d : Page) : Page :=
  let k := runs d in
  (* oldPanel = getElementById("a11y-panel"); if (oldPanel) remove *)
  let panels1 := match panels d with [] => [] | _ :: rest => rest end in
  let styles1 := match styleEls d with [] => [] | _ :: rest => rest end in
  {| panels := panels1 ++ [k];                   (* body.appendChild(panel) *)
     styleEls := styles1 ++ [k];                 (* head.appendChild(styleEl) *)
     keydownListeners := keydownListeners d ++ [k];
     focused := Some k;                          (* panel.focus() *)
     runs := S k |}.

(** The click listener of the close button of panel [k]:
    [panel.remove()]. *)
Definition clickClose (k : nat) (d : Page) : Page :=
  {| panels := removeId k (panels d);
     styleEls := styleEls d;
     keydownListeners := keydownListeners d;
     focused := if existsb (Nat.eqb k) (panels d) then blur k (focused d)
                else focused d;
     runs := runs d |}.

(** The listener [handleEsc] registered by run [k]. *)
Definition handleEsc (key : jsstring) (d : Page) (k : nat) : Page :=
  if jsstring_eqb key (js "Escape") then
    match panels d with
    | p :: rest =>
        {| panels := rest;
           styleEls := styleEls d;
           keydownListeners := removeId k (keydownListeners d);
           focused := blur p (focused d);
           runs := runs d |}
    | [] => d
    end
  else d.

(** A key press reaches every listener registered when it is dispatched. *)
Definition pressKey (key : jsstring) (d : Page) : Page :=
  fold_left (handleEsc key) (keydownListeners d) d.

Inductive Event : Type :=
| Scan
| ClickClose (k : nat)
| PressKey (key : jsstring).

Definition step (d : Page) (ev : Event) : Page :=
  match ev with
  | Scan => runScript d
  | ClickClose k => clickClose k d
  | PressKey key => pressKey key d
  end.

Definition run (evs : list Event) : Page := fold_left step evs initial.

End Overlay.

(* ------------------------------------------------------------------ *)
(** ** Formatting the entries of the report                            *)
(* ------------------------------------------------------------------ *)

(** [truncate(str, maxLen)]; [maxLen] is [None] when the argument is left
    out.  [!maxLen] holds for [undefined] and for 0. *)
Definition truncate (str : jsstring) (maxLen : option nat) : jsstring :=
  let maxLen :=
    match maxLen with
    | None => 60%nat
    | Some O => 60%nat
    | Some m => m
    end in
  if Nat.ltb maxLen (List.length str) then firstn maxLen str ++ js "..."
  else str.

(** The three callbacks [createSection] is called with, each on the issues
    of its own scan.  Code 34 is the double quote. *)
Definition formatIssue (issue : Issue) : jsstring :=
  match issue with
  | AltIssue _ src => js "Image missing alt: " ++ truncate src None
  | HeadingIssue _ current previous =>
      js "Skipped: " ++ previous ++ js " -> " ++ current
  | ContrastIssue e _ _ =>
      js "Low contrast: " ++ [34%N] ++ truncate (textContent e) (Some 40%nat)
      ++ [34%N]
  end.

(** The content of the element [createSection] returns. *)
Record SectionView : Type := mkSectionView {
  ariaLabel : jsstring;
  countText : jsstring;
  passMessage : option jsstring;              (* the "pass-message" box *)
  issueList : option ReportSection.Heap;      (* the list and its entries *)
  adviceBox : option jsstring
}.

(** [createSection(title, issues, formatIssueFn, adviceText)] *)
Definition renderSection (title : jsstring) (issues : list Issue)
  (formatIssueFn : Issue -> jsstring) (adviceText : jsstring) : SectionView :=
  let n := List.length issues in
  {| ariaLabel := title;
     countText :=
       if Nat.eqb n 0 then js "Pass"
       else numToString (Some (Z.of_nat n))
            ++ (if Nat.eqb n 1 then js " issue" else js " issues");
     passMessage := if Nat.eqb n 0 then Some (js "No issues found!") else None;
     issueList :=
       if Nat.eqb n 0 then None
       else Some (ReportSection.createSection formatIssueFn issues);
     adviceBox := if Nat.eqb n 0 then None else Some adviceText |}.

(** The texts of the entries of a list, in the order of its children. *)
Definition entryTexts (h : ReportSection.Heap) : list jsstring :=
  flat_map (fun a => match nth_error (ReportSection.lis h) a with
                     | Some o => [ReportSection.li_textContent o]
                     | None => []
                     end)
    (ReportSection.children h).

(** Whether a key press on the entry at position [k] calls
    [preventDefault]. *)
Definition keydownPrevents (h : ReportSection.Heap) (k : nat)
  (key : jsstring) : bool :=
  match nth_error (ReportSection.children h) k with
  | Some a =>
      match nth_error (ReportSection.lis h) a with
      | Some o =>
          existsb (fun hd => snd (ReportSection.invoke h key hd))
            (ReportSection.keydownListeners o)
      | None => false
      end
  | None => false
  end.

Section Report.

Variable Math_pow : float -> float -> float.

(** The three sections of the panel body, and the count in the header. *)
Definition reportSections (doc : Document) : list SectionView :=
  let altIssues := checkAltText doc in
  let headingIssues := checkHeadings doc in
  let contrastIssues := checkContrast Math_pow doc in
  [ renderSection (js "Missing Alt Text") altIssues formatIssue
      (js "Add descriptive alt text to "
       ++ numToString (Some (Z.of_nat (List.length altIssues)))
       ++ js " image(s). Use alt=" ++ [34%N; 34%N]
       ++ js " only for decorative images.");
    renderSection (js "Heading Hierarchy") headingIssues formatIssue
      (js "Fix "
       ++ numToString (Some (Z.of_nat (List.length headingIssues)))
       ++ js " skipped heading level(s). Headings should go in order (H1, H2, H3, etc).");
    renderSection (js "Contrast Warnings") contrastIssues formatIssue
      (js "Check "
       ++ numToString (Some (Z.of_nat (List.length contrastIssues)))
       ++ js " element(s) with low contrast. WCAG requires at least 4.5:1 for normal text.") ].

End Report.

(** The number of entries a section lists. *)
Definition entryCount (v : SectionView) : nat :=
  match issueList v with
  | Some h => List.length (ReportSection.children h)
  | None => 0
  end.

(* ------------------------------------------------------------------ *)
(** ** The popup: the click handler of the scan button                 *)
(* ------------------------------------------------------------------ *)

Module Popup.

Record Tab : Type := mkTab {
  id : option nat;                 (* [tab.id], undefined = None *)
  url : option jsstring            (* [tab.url], undefined = None *)
}.

(** How an awaited promise settles; a rejection carries [err.message]. *)
Inductive Settled (A : Type) : Type :=
| Fulfilled (a : A)
| Rejected (message : jsstring).

Arguments Fulfilled {A} a.
Arguments Rejected {A} message.

(** What the popup shows. *)
Record View : Type := mkView {
  btnDisabled : bool;
  btnText : jsstring;
  statusText : jsstring;
  statusClass : jsstring
}.

(** [s.startsWith(prefix)] *)
Definition startsWith (s prefix : jsstring) : bool :=
  jsstring_eqb (firstn (List.length prefix) s) prefix.

(** [tab.url && tab.url.startsWith("chrome://")] *)
Definition isChromeUrl (t : Tab) : bool :=
  match url t with
  | None => false
  | Some [] => false
  | Some u => startsWith u (js "chrome://")
  end.

(** The [try] block: how it ends, and the tabs [executeScript] was called
    on.  [query] is how [chrome.tabs.query] settles and [executeScript] how
    the injection into a given tab settles. *)
Definition tryBlock (query : Settled (list Tab))
  (executeScript : nat -> Settled unit) : Settled unit * list nat :=
  match query with
  | Rejected m => (Rejected m, [])
  | Fulfilled tabs =>
      match nth_error tabs 0 with
      | None => (Rejected (js "Couldn't find the active tab"), [])
      | Some tab =>
          match id tab with
          | None => (Rejected (js "Couldn't find the active tab"), [])
          | Some O => (Rejected (js "Couldn't find the active tab"), [])
          | Some i =>
              if isChromeUrl tab then
                (Rejected
                   (js "Can't scan chrome:// pages, try a regular website"),
                 [])
              else (executeScript i, [i])
          end
      end
  end.

(** The view while the handler is waiting. *)
Definition scanning : View :=
  {| btnDisabled := true; btnText := js "Scanning...";
     statusText := []; statusClass := [] |}.

(** The view when the handler has finished, and the injections made. *)
Definition onClick (query : Settled (list Tab))
  (executeScript : nat -> Settled unit) : View * list nat :=
  let '(outcome, injected) := tryBlock query executeScript in
  (match outcome with
   | Fulfilled _ =>
       {| btnDisabled := false; btnText := js "Run Audit";
          statusText := js "Done! Check the page for the audit report.";
          statusClass := js "success" |}
   | Rejected m =>
       {| btnDisabled := false; btnText := js "Run Audit";
          statusText := js "Error: " ++ m;
          statusClass := js "error" |}
   end, injected).

End Popup.

(* ------------------------------------------------------------------ *)
(** ** Notions used to state the properties                            *)
(* ------------------------------------------------------------------ *)

(** The notation of computed styles for an opaque colour and for a colour
    with an alpha component; [r], [g], [b] and [a] are the numerals. *)
Definition rgbString (r g b : jsstring) : jsstring :=
  js "rgb(" ++ r ++ js ", " ++ g ++ js ", " ++ b ++ js ")".

Definition rgbaString (r g b a : jsstring) : jsstring :=
  js "rgba(" ++ r ++ js ", " ++ g ++ js ", " ++ b ++ js ", " ++ a ++ js ")".

(** A channel intensity lies in the unit interval. *)
Definition inUnit (c : float) : bool := ((0 <=? c) && (c <=? 1))%float.

(** A non-empty run of ASCII digits. *)
Definition digits (g : jsstring) : Prop :=
  g <> [] /\ forallb isDigit g = true.


(** The next character, if any, is outside the class [p]. *)
Definition stopsAt (p : N -> bool) (s : jsstring) : Prop :=
  match s with
  | [] => True
  | c :: _ => p c = false
  end.

(** Equality of element types is decidable. *)
Definition Tag_eq_dec (a b : Tag) : {a = b} + {a <> b}.
Proof. decide equality. apply (list_eq_dec N.eq_dec). Defined.

(** The element is of one of the listed types. *)
Definition hasType (ts : list Tag) (e : Element) : bool :=
  if in_dec Tag_eq_dec (tag e) ts then true else false.

(** The elements of the document of the listed types, in document order. *)
Definition elementsOfType (ts : list Tag) (doc : Document) : list Element :=
  filter (hasType ts) (allElements doc).

(** Images, headings, and the text-bearing elements of the specification:
    paragraph, span, link, list item, table cell and header, label, generic
    block, all heading levels. *)
Definition imageTags : list Tag := [IMG].

Definition headingTags : list Tag := [H1; H2; H3; H4; H5; H6].

Definition textTags : list Tag :=
  [P; SPAN; A; LI; TD; TH; LABEL; DIV; H1; H2; H3; H4; H5; H6].

(** In the words of the specification: the alternative text is absent, or
    holds nothing but white space, so that nothing is left after
    trimming. *)
Definition altAbsentOrBlank (img : Element) : bool :=
  match alt img with
  | None => true
  | Some a => forallb isWhiteSpace a
  end.

(** The level of a heading element, from its type. *)
Definition headingLevel (h : Element) : Z :=
  match tag h with
  | H1 => 1 | H2 => 2 | H3 => 3 | H4 => 4 | H5 => 5 | H6 => 6
  | _ => 0
  end%Z.

(** The heading hierarchy rule in the words of the specification: a finding
    at each heading that has a preceding heading [prev] and whose level
    exceeds the level of [prev] plus one.  The finding records the tag name
    of the heading and the letter H with the level of [prev]. *)
Fixpoint skippedHeadings (html : bool) (prev : option Element)
  (hs : list Element) : list Issue :=
  match hs with
  | [] => []
  | h :: hs' =>
      match prev with
      | Some p =>
          if (headingLevel p + 1 <? headingLevel h)%Z then
            [HeadingIssue h (tagName html (tag h))
               (js "H" ++ numToString (Some (headingLevel p)))]
          else []
      | None => []
      end ++ skippedHeadings html (Some h) hs'
  end.

(** Every heading is at a lower level than the one before it. *)
Definition descending (hs : list Element) : Prop :=
  forall pre a b post,
    hs = pre ++ a :: b :: post -> (headingLevel b < headingLevel a)%Z.

(** The value of [lastLevel] after the heading [prev], or at the start. *)
Definition levelAfter (prev : option Element) : option Z :=
  match prev with
  | Some p => Some (headingLevel p)
  | None => Some 0%Z
  end.

(** The condition under which the loop of [checkContrast] pushes [el]. *)
Definition contrastFlagged (Math_pow : float -> float -> float)
  (doc : Document) (el : Element) : bool :=
  match offsetParent el with
  | None => false
  | Some _ =>
      negb (jsstring_eqb (trim (textContent el)) [])
      && lightOnLight
           (getLuminance Math_pow (color (getComputedStyle el)))
           (getLuminance Math_pow (getBackgroundColor doc el))
  end.

(** The characters of an alpha numeral: digits and the decimal point. *)
Definition isAlphaChar (c : N) : bool := isDigit c || (c =? 46)%N.

(** [rgba(r, g, b, a)] with the alpha numeral captured as a fourth group. *)
Definition rgbaRegex : list RegexItem :=
  [ Lit 114; Lit 103; Lit 98; Lit 97; Lit 40;
    StarClass isWhiteSpace; GroupPlus isDigit; StarClass isWhiteSpace; Lit 44;
    StarClass isWhiteSpace; GroupPlus isDigit; StarClass isWhiteSpace; Lit 44;
    StarClass isWhiteSpace; GroupPlus isDigit; StarClass isWhiteSpace; Lit 44;
    StarClass isWhiteSpace; GroupPlus isAlphaChar ]%N.

(** Full transparency in the words of the specification: the keyword
    [transparent], or a colour whose alpha component is zero ([0], [0.0],
    ...), whatever its three channels. *)
Definition fullyTransparent (bg : jsstring) : bool :=
  jsstring_eqb bg (js "transparent")
  || match String_match rgbaRegex bg with
     | Some m =>
         forallb (fun c => (c =? 48)%N || (c =? 46)%N) (matchGroup 4 m)
         && existsb (N.eqb 48) (matchGroup 4 m)
     | None => false
     end.

(** An element followed by its ancestors, nearest first. *)
Fixpoint ancestorsOrSelf (el : Element) : list Element :=
  el :: match parentElement el with
        | Some parent => ancestorsOrSelf parent
        | None => []
        end.

(** Where the walk of [getBackgroundColor] stops: at the root, or at an
    element whose background passes the test of the loop. *)
Definition walkStops (root : nat) (e : Element) : bool :=
  Nat.eqb (nodeId e) root
  || notTransparent (backgroundColor (getComputedStyle e)).

(** The entry [createSection] builds for the issue at position [k]. *)
Definition entry (formatIssueFn : Issue -> jsstring) (k : nat)
  (issue : Issue) : ReportSection.LiObject :=
  ReportSection.mkLi (formatIssueFn issue)
    [ReportSection.ClickHandler k] [ReportSection.KeydownHandler k].

Fixpoint entriesFrom (formatIssueFn : Issue -> jsstring) (k : nat)
  (issues : list Issue) : list ReportSection.LiObject :=
  match issues with
  | [] => []
  | issue :: rest =>
      entry formatIssueFn k issue :: entriesFrom formatIssueFn (S k) rest
  end.

(** The heap once the loop has handled the issues [done]. *)
Definition heapAfter (formatIssueFn : Issue -> jsstring)
  (done : list Issue) : ReportSection.Heap :=
  {| ReportSection.fscope :=
       ReportSection.mkFunctionScope (List.length done)
         (match done with
          | [] => None
          | _ :: _ => Some (List.length done - 1)%nat
          end);
     ReportSection.scopes :=
       map (fun issue => ReportSection.mkClosureScope (element issue)) done;
     ReportSection.lis := entriesFrom formatIssueFn 0 done;
     ReportSection.children := seq 0 (List.length done) |}.

(** A page on which no element has an inline outline or background. *)
Definition samplePage : Highlighter.Page :=
  {| Highlighter.now := 0;
     Highlighter.style := fun _ => Highlighter.mkInlineStyle [] [];
     Highlighter.inDocument := fun _ => true;
     Highlighter.timers := [];
     Highlighter.scrolledTo := [] |}.

(** What a section of the panel shows for the findings of its scan: its
    title; for no finding the badge [Pass] and the pass message, and
    neither list nor advice; otherwise the number of findings with [issue]
    or [issues] as the badge, no pass message, a list whose entries are the
    formatted findings in order, and an advice that names the number of
    findings. *)
Definition sectionShows (v : SectionView) (title : jsstring)
  (issues : list Issue) : Prop :=
  ariaLabel v = title
  /\ match issues with
     | [] =>
         countText v = js "Pass"
         /\ passMessage v = Some (js "No issues found!")
         /\ issueList v = None /\ adviceBox v = None
     | _ :: _ =>
         (List.length issues = 1%nat -> countText v = js "1 issue")
         /\ (List.length issues <> 1%nat ->
             countText v
             = numToString (Some (Z.of_nat (List.length issues)))
               ++ js " issues")
         /\ countText v <> js "Pass"
         /\ passMessage v = None
         /\ (exists h, issueList v = Some h
                       /\ entryTexts h = map formatIssue issues)
         /\ (exists pre post,
               adviceBox v
               = Some (pre
                       ++ numToString (Some (Z.of_nat (List.length issues)))
                       ++ post))
     end.

(** What holds of the page after any sequence of scans, clicks on a close
    button and key presses. *)
Definition overlayInvariant (d : Overlay.Page) : Prop :=
  (List.length (Overlay.panels d) <= 1)%nat
  /\ NoDup (Overlay.keydownListeners d)
  /\ Forall (fun k => (k < Overlay.runs d)%nat) (Overlay.keydownListeners d)
  /\ (List.length (Overlay.panels d)
      <= List.length (Overlay.keydownListeners d))%nat.

Definition isScan (ev : Overlay.Event) : bool :=
  match ev with
  | Overlay.Scan => true
  | _ => false
  end.

(** *** Sample documents *)

Definition sampleHtml : Element :=
  mkElement 0 (OTHER (js "html")) None [] None []
    (mkComputedStyle (js "rgb(0, 0, 0)") (js "rgba(0, 0, 0, 0)")) None.

(** A body with a black background. *)
Definition sampleDarkBody : Element :=
  mkElement 1 (OTHER (js "body")) None [] None (js "Hello")
    (mkComputedStyle (js "rgb(255, 255, 255)") (js "rgb(0, 0, 0)"))
    (Some sampleHtml).

(** White text in a paragraph whose background was declared as white with
    alpha 0, on the black body. *)
Definition sampleClearParagraph : Element :=
  mkElement 2 P None [] (Some 1%nat) (js "Hello")
    (mkComputedStyle (js "rgb(255, 255, 255)") (js "rgba(255, 255, 255, 0)"))
    (Some sampleDarkBody).

(** The same paragraph with the background [transparent]. *)
Definition sampleTransparentParagraph : Element :=
  mkElement 3 P None [] (Some 1%nat) (js "Hello")
    (mkComputedStyle (js "rgb(255, 255, 255)") (js "rgba(0, 0, 0, 0)"))
    (Some sampleDarkBody).

Definition sampleDarkDocument : Document :=
  mkDocument true sampleHtml
    [sampleHtml; sampleDarkBody; sampleClearParagraph;
     sampleTransparentParagraph].

(** A body without a background of its own. *)
Definition samplePlainBody : Element :=
  mkElement 1 (OTHER (js "body")) None [] None (js "Hello")
    (mkComputedStyle (js "rgb(0, 0, 0)") (js "rgba(0, 0, 0, 0)"))
    (Some sampleHtml).

(** White text in a paragraph on the default background. *)
Definition sampleWhiteParagraph : Element :=
  mkElement 2 P None [] (Some 1%nat) (js "Hello")
    (mkComputedStyle (js "rgb(255, 255, 255)") (js "rgba(0, 0, 0, 0)"))
    (Some samplePlainBody).

Definition samplePlainDocument : Document :=
  mkDocument true sampleHtml [sampleHtml; samplePlainBody; sampleWhiteParagraph].

(** White text in a paragraph with [position: fixed] on the default white
    background.  The paragraph is displayed and has a layout box; for an
    element in fixed position the browser reports no [offsetParent]. *)
Definition sampleFixedParagraph : Element :=
  mkElement 2 P None [] None (js "Hello")
    (mkComputedStyle (js "rgb(255, 255, 255)") (js "rgba(0, 0, 0, 0)"))
    (Some samplePlainBody).

Definition sampleFixedDocument : Document :=
  mkDocument true sampleHtml [sampleHtml; samplePlainBody; sampleFixedParagraph].

(** Dark text in a colour notation the script does not parse, on the
    default background. *)
Definition sampleOklchParagraph : Element :=
  mkElement 2 P None [] (Some 1%nat) (js "Hello")
    (mkComputedStyle (js "oklch(0.2 0.1 20)") (js "rgba(0, 0, 0, 0)"))
    (Some samplePlainBody).

Definition sampleOklchDocument : Document :=
  mkDocument true sampleHtml [sampleHtml; samplePlainBody; sampleOklchParagraph].

(** A stand-in for [Math.pow] that is exact at base 1. *)
Definition samplePow (x y : float) : float := x.

(* ================================================================== *)
(** * Properties                                                       *)
(* ================================================================== *)

(** ** Strings *)

Lemma jsstring_eqb_eq (a b : jsstring) : jsstring_eqb a b = true <-> a = b.
Proof.
  revert b; induction a as [|x a IH]; intros [|y b]; simpl;
    try (split; congruence).
  rewrite andb_true_iff, N.eqb_eq, IH. split.
  - intros [-> ->]; reflexivity.
  - intros E; injection E; auto.
Qed.

Lemma jsstring_eqb_nil (a : jsstring) : jsstring_eqb a [] = true <-> a = [].
Proof. apply jsstring_eqb_eq. Qed.

Lemma isDigit_range (c : N) : isDigit c = true -> (48 <= c <= 57)%N.
Proof.
  unfold isDigit. rewrite andb_true_iff, !N.leb_le. auto.
Qed.

Lemma isDigit_cases (c : N) :
  isDigit c = true ->
  In c [48; 49; 50; 51; 52; 53; 54; 55; 56; 57]%N.
Proof.
  intros H; apply isDigit_range in H. simpl.
  assert (E : c = N.of_nat (N.to_nat c)) by (symmetry; apply N2Nat.id).
  assert (B : (48 <= N.to_nat c <= 57)%nat) by lia.
  remember (N.to_nat c) as n eqn:En. clear En H.
  do 48 (destruct n as [|n]; [lia|]).
  do 10 (destruct n as [|n]; [subst c; simpl; tauto|]).
  lia.
Qed.

(** Settle a goal about a digit [c] by running [tac] on each of the ten
    values [H : isDigit c = true] allows. *)
Ltac by_digit_cases H tac :=
  apply isDigit_cases in H; simpl in H;
  repeat (destruct H as [<-|H]; [tac|]);
  contradiction.

Lemma isDigit_not_space (c : N) : isDigit c = true -> isWhiteSpace c = false.
Proof. intros H. by_digit_cases H reflexivity. Qed.

(** ** Trimming *)

Lemma trimStart_nil (s : jsstring) :
  trimStart s = [] <-> forallb isWhiteSpace s = true.
Proof.
  induction s as [|c s IH]; simpl; [tauto|].
  destruct (isWhiteSpace c); simpl; [exact IH|].
  split; discriminate.
Qed.

Lemma trimStart_suffix (s : jsstring) :
  exists ws, s = ws ++ trimStart s /\ forallb isWhiteSpace ws = true.
Proof.
  induction s as [|c s (ws & E & H)]; simpl.
  - exists []. auto.
  - destruct (isWhiteSpace c) eqn:Ec.
    + exists (c :: ws). simpl. rewrite Ec, H. split; [congruence|reflexivity].
    + exists []. auto.
Qed.

Lemma trim_nil (s : jsstring) :
  trim s = [] <-> forallb isWhiteSpace s = true.
Proof.
  unfold trim, trimEnd. split.
  - intros H.
    assert (H1 : trimStart (rev (trimStart s)) = []).
    { destruct (trimStart (rev (trimStart s))) as [|x l]; [reflexivity|].
      simpl in H. now destruct (rev l). }
    apply trimStart_nil in H1.
    assert (H2 : forallb isWhiteSpace (trimStart s) = true).
    { rewrite forallb_forall in *. intros x Hx. apply H1.
      now apply in_rev in Hx. }
    destruct (trimStart_suffix s) as (ws & E & Hws).
    rewrite E, forallb_app, Hws, H2. reflexivity.
  - intros H. apply trimStart_nil in H. now rewrite H.
Qed.

(** ** The regular expression engine *)






Lemma starBt_stop {A} p (k : jsstring -> option A) s :
  stopsAt p s -> starBt p k s = k s.
Proof.
  destruct s as [|c s]; simpl; [reflexivity|]. now intros ->.
Qed.

Lemma starBt_app {A} p (k : jsstring -> option A) ws s r :
  forallb p ws = true ->
  starBt p k s = Some r ->
  starBt p k (ws ++ s) = Some r.
Proof.
  induction ws as [|c ws IH]; simpl; intros Hp H; [assumption|].
  apply andb_true_iff in Hp as [-> Hp]. now rewrite IH.
Qed.

Lemma plusBt_greedy {A} p (k : jsstring -> jsstring -> option A) g :
  forall taken rest r,
    g <> [] -> forallb p g = true -> stopsAt p rest ->
    k (taken ++ g) rest = Some r ->
    plusBt p k taken (g ++ rest) = Some r.
Proof.
  induction g as [|c g IH]; intros taken rest r Hne Hp Hstop Hk;
    [congruence|].
  simpl in *. apply andb_true_iff in Hp as [-> Hp].
  destruct g as [|c' g].
  - simpl. replace (plusBt p k (taken ++ [c]) rest) with (@None A).
    + assumption.
    + destruct rest as [|x rest]; simpl in *; [reflexivity|].
      now rewrite Hstop.
  - rewrite (IH (taken ++ [c]) rest r); auto; [discriminate|].
    now rewrite <- app_assoc.
Qed.

(** ** [parseInt] on the captured groups *)





(** ** Channel intensities *)



Lemma parseRgb_no_match (s : jsstring) :
  String_match rgbRegex s = None -> parseRgb s = [1; 1; 1]%float.
Proof. unfold parseRgb. now intros ->. Qed.

Lemma parseRgb_white : parseRgb white = [1; 1; 1]%float.
Proof. vm_compute. reflexivity. Qed.

Lemma parseRgb_black : parseRgb (js "rgb(0, 0, 0)") = [0; 0; 0]%float.
Proof. vm_compute. reflexivity. Qed.

Lemma matchHere_Lit c rest caps s :
  matchHere (Lit c :: rest) caps (c :: s) = matchHere rest caps s.
Proof. simpl. now rewrite N.eqb_refl. Qed.

Lemma matchHere_OptLit_take c rest caps s r :
  matchHere rest caps s = Some r ->
  matchHere (OptLit c :: rest) caps (c :: s) = Some r.
Proof. intros H. simpl. now rewrite N.eqb_refl, H. Qed.

Lemma matchHere_OptLit_skip c x rest caps s :
  N.eqb x c = false ->
  matchHere (OptLit c :: rest) caps (x :: s) = matchHere rest caps (x :: s).
Proof. intros H. simpl. now rewrite H. Qed.

(** The match of the expression at the start of a colour in the notation of
    computed styles, whatever follows the third number. *)
Lemma rgb_match_here (a : bool) (r g b tail : jsstring) :
  digits r -> digits g -> digits b -> stopsAt isDigit tail ->
  matchHere rgbRegex []
    (js "rgb" ++ (if a then js "a" else []) ++ js "(" ++ r ++ js ", " ++ g
     ++ js ", " ++ b ++ tail)
  = Some [r; g; b].
Proof.
  intros [Hr1 Hr2] [Hg1 Hg2] [Hb1 Hb2] Htail.
  assert (Hspace : forall k d (rest : jsstring) x,
             isDigit d = true ->
             k (d :: rest) = Some x ->
             starBt (A := list jsstring) isWhiteSpace k (32%N :: d :: rest)
             = Some x).
  { intros k d rest x Hd Hk.
    apply (starBt_app isWhiteSpace k [32%N] (d :: rest)); [reflexivity|].
    rewrite starBt_stop; [assumption|].
    simpl. now apply isDigit_not_space. }
  assert (Hzero : forall k d (rest : jsstring) x,
             isDigit d = true ->
             k (d :: rest) = Some x ->
             starBt (A := list jsstring) isWhiteSpace k (d :: rest) = Some x).
  { intros k d rest x Hd Hk. rewrite starBt_stop; [assumption|].
    simpl. now apply isDigit_not_space. }
  assert (Hcomma : forall k (rest : jsstring),
             starBt (A := list jsstring) isWhiteSpace k (44%N :: rest)
             = k (44%N :: rest)).
  { intros k rest. now rewrite starBt_stop. }
  destruct r as [|r0 r]; [congruence|].
  destruct g as [|g0 g]; [congruence|].
  destruct b as [|b0 b]; [congruence|].
  assert (Hr0 : isDigit r0 = true)
    by (simpl in Hr2; now apply andb_true_iff in Hr2 as [? _]).
  assert (Hg0 : isDigit g0 = true)
    by (simpl in Hg2; now apply andb_true_iff in Hg2 as [? _]).
  assert (Hb0 : isDigit b0 = true)
    by (simpl in Hb2; now apply andb_true_iff in Hb2 as [? _]).
  assert (Hmid : matchHere
            [ StarClass isWhiteSpace; GroupPlus isDigit;
              StarClass isWhiteSpace; Lit 44;
              StarClass isWhiteSpace; GroupPlus isDigit;
              StarClass isWhiteSpace; Lit 44;
              StarClass isWhiteSpace; GroupPlus isDigit ]%N []
            ((r0 :: r) ++ js ", " ++ (g0 :: g) ++ js ", " ++ (b0 :: b) ++ tail)
          = Some [r0 :: r; g0 :: g; b0 :: b]).
  { cbn [matchHere]. apply Hzero; [assumption|].
    apply (plusBt_greedy isDigit _ (g := r0 :: r) []); auto.
    { reflexivity. }
    cbn [app]. change (js ", ") with [44%N; 32%N]. cbn [app].
    rewrite Hcomma. rewrite N.eqb_refl.
    apply Hspace; [assumption|].
    apply (plusBt_greedy isDigit _ (g := g0 :: g) []); auto.
    { reflexivity. }
    cbn [app]. rewrite Hcomma. rewrite N.eqb_refl.
    apply Hspace; [assumption|].
    apply (plusBt_greedy isDigit _ (g := b0 :: b) []); auto. }
  destruct a.
  - change (js "rgb" ++ js "a" ++ js "(" ++ (r0 :: r) ++ js ", " ++ (g0 :: g)
            ++ js ", " ++ (b0 :: b) ++ tail)
      with (114 :: 103 :: 98 :: 97 :: 40 ::
            ((r0 :: r) ++ js ", " ++ (g0 :: g) ++ js ", " ++ (b0 :: b)
             ++ tail))%N.
    unfold rgbRegex. rewrite !matchHere_Lit.
    apply matchHere_OptLit_take. rewrite matchHere_Lit. exact Hmid.
  - change (js "rgb" ++ [] ++ js "(" ++ (r0 :: r) ++ js ", " ++ (g0 :: g)
            ++ js ", " ++ (b0 :: b) ++ tail)
      with (114 :: 103 :: 98 :: 40 ::
            ((r0 :: r) ++ js ", " ++ (g0 :: g) ++ js ", " ++ (b0 :: b)
             ++ tail))%N.
    unfold rgbRegex. rewrite !matchHere_Lit.
    rewrite matchHere_OptLit_skip by reflexivity.
    rewrite matchHere_Lit. exact Hmid.
Qed.

Lemma String_match_here (items : list RegexItem) (s : jsstring) r :
  matchHere items [] s = Some r -> String_match items s = Some r.
Proof. intros H. destruct s; simpl; now rewrite H. Qed.

Lemma rgbString_match (r g b : jsstring) :
  digits r -> digits g -> digits b ->
  String_match rgbRegex (rgbString r g b) = Some [r; g; b].
Proof.
  intros Hr Hg Hb. apply String_match_here.
  exact (rgb_match_here false (js ")") Hr Hg Hb eq_refl).
Qed.

Lemma rgbaString_match (r g b a : jsstring) :
  digits r -> digits g -> digits b ->
  String_match rgbRegex (rgbaString r g b a) = Some [r; g; b].
Proof.
  intros Hr Hg Hb. apply String_match_here.
  exact (rgb_match_here true (js ", " ++ a ++ js ")") Hr Hg Hb eq_refl).
Qed.

Lemma parseRgb_rgbaString (r g b a : jsstring) :
  digits r -> digits g -> digits b ->
  parseRgb (rgbaString r g b a) = parseRgb (rgbString r g b).
Proof.
  intros Hr Hg Hb. unfold parseRgb.
  now rewrite rgbaString_match, rgbString_match.
Qed.

Lemma getLuminance_parseRgb Math_pow (s t : jsstring) :
  parseRgb s = parseRgb t -> getLuminance Math_pow s = getLuminance Math_pow t.
Proof. unfold getLuminance. now intros ->. Qed.

Section ColourModel.

Variable Math_pow : float -> float -> float.

Lemma transfer_one : transfer Math_pow 1 = Math_pow 1 2.4.
Proof. reflexivity. Qed.

Lemma transfer_zero : transfer Math_pow 0 = 0%float.
Proof. reflexivity. Qed.

(** C5.  Provided the host's [Math.pow] maps base 1 to 1, the luminance
    of pure white is exactly 1 and that of pure black exactly 0; and a
    colour string the expression does not match has the luminance of
    explicit white.  [getLuminance] is a total function: it has no
    failing path. *)
Theorem luminance_white_black_unparsable :
  Math_pow 1 2.4 = 1%float ->
  getLuminance Math_pow (js "rgb(255, 255, 255)") = 1%float
  /\ getLuminance Math_pow (js "rgb(0, 0, 0)") = 0%float
  /\ (forall s, String_match rgbRegex s = None ->
               getLuminance Math_pow s
               = getLuminance Math_pow (js "rgb(255, 255, 255)")).
Proof.
  intros Hpow. split; [|split].
  - unfold getLuminance. change (js "rgb(255, 255, 255)") with white.
    rewrite parseRgb_white. cbn [map nth].
    rewrite transfer_one, Hpow. reflexivity.
  - unfold getLuminance. rewrite parseRgb_black. cbn [map nth].
    rewrite transfer_zero. reflexivity.
  - intros s H. apply getLuminance_parseRgb.
    rewrite (parseRgb_no_match s H). symmetry. exact parseRgb_white.
Qed.

(** C10.  A colour with an alpha component and the colour with the same
    three channels and no alpha component, or another one, parse to the
    same triple and have the same luminance. *)
Theorem alpha_never_influences_luminance (r g b a a' : jsstring) :
  digits r -> digits g -> digits b ->
  parseRgb (rgbaString r g b a) = parseRgb (rgbString r g b)
  /\ parseRgb (rgbaString r g b a) = parseRgb (rgbaString r g b a')
  /\ getLuminance Math_pow (rgbaString r g b a)
     = getLuminance Math_pow (rgbString r g b)
  /\ getLuminance Math_pow (rgbaString r g b a)
     = getLuminance Math_pow (rgbaString r g b a').
Proof.
  intros Hr Hg Hb.
  assert (E1 := parseRgb_rgbaString a Hr Hg Hb).
  assert (E2 := parseRgb_rgbaString a' Hr Hg Hb).
  repeat split.
  - exact E1.
  - congruence.
  - now apply getLuminance_parseRgb.
  - apply getLuminance_parseRgb. congruence.
Qed.

End ColourModel.

Lemma luminance_white_black_unparsable_witness :
  getLuminance samplePow (js "rgb(255, 255, 255)") = 1%float
  /\ getLuminance samplePow (js "rgb(0, 0, 0)") = 0%float
  /\ (forall s, String_match rgbRegex s = None ->
               getLuminance samplePow s
               = getLuminance samplePow (js "rgb(255, 255, 255)")).
Proof.
  apply (luminance_white_black_unparsable samplePow). reflexivity.
Defined.

Lemma digits_literal_128 : digits (js "128").
Proof. split; [discriminate|reflexivity]. Defined.

Lemma digits_literal_64 : digits (js "64").
Proof. split; [discriminate|reflexivity]. Defined.

Lemma alpha_never_influences_luminance_witness :
  parseRgb (rgbaString (js "128") (js "64") (js "128") (js "0.5"))
  = parseRgb (rgbString (js "128") (js "64") (js "128"))
  /\ getLuminance samplePow
       (rgbaString (js "128") (js "64") (js "128") (js "0.5"))
     = getLuminance samplePow
         (rgbString (js "128") (js "64") (js "128")).
Proof.
  destruct (alpha_never_influences_luminance samplePow (js "0.5")
              (js "0") digits_literal_128 digits_literal_64
              digits_literal_128) as (H1 & _ & H3 & _).
  split; assumption.
Defined.

(** [parseRgb] does not clamp: on a string with a channel numeral above
    255, which no computed style holds, the intensity is above 1. *)
Lemma parseRgb_channel_above_one :
  ~ (forall s, Forall (fun c => inUnit c = true) (parseRgb s)).
Proof.
  intros H. specialize (H (js "rgb(300, 0, 0)")).
  assert (E : exists l, parseRgb (js "rgb(300, 0, 0)")
                        = (Z2float 300 / 255)%float :: l)
    by (eexists; vm_compute; reflexivity).
  destruct E as [l E]. rewrite E in H. apply Forall_inv in H.
  vm_compute in H. discriminate.
Qed.



(** ** Loops that push onto [results] *)

Lemma fold_push {A B} (step : list B -> A -> list B) (keep : A -> bool)
  (mk : A -> B) :
  (forall res x, step res x = if keep x then res ++ [mk x] else res) ->
  forall l acc, fold_left step l acc = acc ++ map mk (filter keep l).
Proof.
  intros Hstep. induction l as [|x l IH]; intros acc; simpl.
  - now rewrite app_nil_r.
  - rewrite IH, Hstep. destruct (keep x); simpl; [|reflexivity].
    now rewrite <- app_assoc.
Qed.

(** ** Scan 1 *)

Lemma checkAltText_filter (doc : Document) :
  checkAltText doc
  = map (fun img => AltIssue img (srcOrPlaceholder img))
      (filter missingAlt (querySelectorAll sel_img doc)).
Proof.
  unfold checkAltText.
  now rewrite (fold_push altStep missingAlt
                 (fun img => AltIssue img (srcOrPlaceholder img))).
Qed.

Lemma srcOrPlaceholder_nonempty (img : Element) : srcOrPlaceholder img <> [].
Proof.
  unfold srcOrPlaceholder. destruct (src img); discriminate.
Qed.

Lemma hasType_In (ts : list Tag) (e : Element) :
  hasType ts e = true <-> In (tag e) ts.
Proof.
  unfold hasType. destruct (in_dec Tag_eq_dec (tag e) ts); split;
    intros H; first [assumption | reflexivity | discriminate | contradiction].
Qed.

(** Compare a selector of the script with a list of element types. *)
Ltac selector_is_type_list e :=
  apply eq_true_iff_eq; rewrite hasType_In;
  destruct (tag e); simpl; split; intros H;
  try reflexivity; try discriminate; try tauto;
  repeat (destruct H as [H|H]; try discriminate H); try contradiction.

Lemma sel_img_type (e : Element) : sel_img (tag e) = hasType imageTags e.
Proof. selector_is_type_list e. Qed.

Lemma sel_headings_type (e : Element) :
  sel_headings (tag e) = hasType headingTags e.
Proof. selector_is_type_list e. Qed.

Lemma sel_text_type (e : Element) : sel_text (tag e) = hasType textTags e.
Proof. selector_is_type_list e. Qed.

Lemma querySelectorAll_img (doc : Document) :
  querySelectorAll sel_img doc = elementsOfType imageTags doc.
Proof. apply filter_ext. intros e. apply sel_img_type. Qed.

Lemma querySelectorAll_headings (doc : Document) :
  querySelectorAll sel_headings doc = elementsOfType headingTags doc.
Proof. apply filter_ext. intros e. apply sel_headings_type. Qed.

Lemma querySelectorAll_text (doc : Document) :
  querySelectorAll sel_text doc = elementsOfType textTags doc.
Proof. apply filter_ext. intros e. apply sel_text_type. Qed.

Lemma missingAlt_blank (img : Element) :
  missingAlt img = altAbsentOrBlank img.
Proof.
  unfold missingAlt, altAbsentOrBlank. destruct (alt img) as [a|];
    [|reflexivity].
  apply eq_true_iff_eq. now rewrite jsstring_eqb_nil, trim_nil.
Qed.

Lemma altAbsentOrBlank_iff (img : Element) :
  altAbsentOrBlank img = true
  <-> alt img = None
      \/ exists a, alt img = Some a /\ forallb isWhiteSpace a = true.
Proof.
  unfold altAbsentOrBlank. destruct (alt img) as [a|]; split; auto.
  - intros H. right. eauto.
  - intros [H|(a' & [= <-] & H)]; [discriminate|assumption].
Qed.

(** C3.  The findings of the alt-text scan are, in document order, the
    image elements of the document whose [alt] attribute is null or holds
    only white space (empty after trimming), so there are as many findings
    as such images.  Each such image is reported with its resource locator,
    or with the placeholder when it has none; no finding carries the empty
    string, and nothing else is reported. *)
Theorem checkAltText_counts_missing_alt (doc : Document) :
  map element (checkAltText doc)
  = filter altAbsentOrBlank (elementsOfType imageTags doc)
  /\ List.length (checkAltText doc)
     = List.length (filter altAbsentOrBlank (elementsOfType imageTags doc))
  /\ (forall img,
        In img (allElements doc) -> tag img = IMG ->
        alt img = None
        \/ (exists a, alt img = Some a /\ forallb isWhiteSpace a = true) ->
        (src img = [] ->
         In (AltIssue img (js "(no src)")) (checkAltText doc))
        /\ (src img <> [] -> In (AltIssue img (src img)) (checkAltText doc)))
  /\ (forall e s,
        In (AltIssue e s) (checkAltText doc) ->
        s <> [] /\ In e (allElements doc) /\ tag e = IMG
        /\ altAbsentOrBlank e = true).
Proof.
  assert (E : checkAltText doc
              = map (fun img => AltIssue img (srcOrPlaceholder img))
                  (filter altAbsentOrBlank (elementsOfType imageTags doc))).
  { rewrite checkAltText_filter, querySelectorAll_img.
    f_equal. apply filter_ext. intros e. apply missingAlt_blank. }
  rewrite E. split; [|split; [|split]].
  - rewrite map_map. simpl. apply map_id.
  - now rewrite length_map.
  - intros img Hin Htag Halt.
    assert (Hsel : In img (filter altAbsentOrBlank
                             (elementsOfType imageTags doc))).
    { apply filter_In. split; [|now apply altAbsentOrBlank_iff].
      apply filter_In. split; [exact Hin|].
      apply hasType_In. rewrite Htag. now left. }
    split; intros Hsrc; apply in_map_iff; exists img; (split; [|exact Hsel]);
      unfold srcOrPlaceholder.
    + now rewrite Hsrc.
    + now destruct (src img).
  - intros e s Hin. apply in_map_iff in Hin as (img & Eq & Hin).
    injection Eq as <- <-.
    apply filter_In in Hin as [Hty Hblank].
    apply filter_In in Hty as [Hall Hty]. apply hasType_In in Hty.
    repeat split; auto.
    + apply srcOrPlaceholder_nonempty.
    + destruct Hty as [<-|[]]. reflexivity.
Qed.

(** ** Scan 2 *)

Lemma querySelectorAll_sel (sel : Tag -> bool) (doc : Document) :
  Forall (fun e => sel (tag e) = true) (querySelectorAll sel doc).
Proof.
  apply Forall_forall. intros e H. now apply filter_In in H.
Qed.

Section HeadingFacts.

Variable html : bool.

Lemma heading_level_parsed (h : Element) :
  sel_headings (tag h) = true ->
  parseInt (charAt (tagName html (tag h)) 1) = Some (headingLevel h)
  /\ (1 <= headingLevel h <= 6)%Z.
Proof.
  unfold headingLevel. destruct html; destruct (tag h); simpl;
    try discriminate; intros _; split; try reflexivity; lia.
Qed.

Lemma headingStep_snd (st : HeadingState) (h : Element) :
  sel_headings (tag h) = true ->
  snd (headingStep html st h) = Some (headingLevel h).
Proof.
  intros H. destruct st as [res last]. unfold headingStep. simpl.
  now destruct (heading_level_parsed h H) as (-> & _).
Qed.

Lemma headingStep_first (res : list Issue) (h : Element) :
  headingStep html (res, Some 0%Z) h
  = (res, parseInt (charAt (tagName html (tag h)) 1)).
Proof. reflexivity. Qed.

Lemma headingStep_next (res : list Issue) (p h : Element) :
  sel_headings (tag p) = true -> sel_headings (tag h) = true ->
  headingStep html (res, Some (headingLevel p)) h
  = (if (headingLevel p + 1 <? headingLevel h)%Z then
       res ++ [HeadingIssue h (tagName html (tag h))
                 (js "H" ++ numToString (Some (headingLevel p)))]
     else res,
     Some (headingLevel h)).
Proof.
  intros Hp Hh. unfold headingStep.
  destruct (heading_level_parsed h Hh) as (-> & _).
  destruct (heading_level_parsed p Hp) as (_ & Bp).
  replace (notZero (Some (headingLevel p))) with true; [reflexivity|].
  unfold notZero. destruct (headingLevel p); (reflexivity || lia).
Qed.

Lemma headingStep_skipped (res : list Issue) (prev : option Element)
  (h : Element) :
  (forall p, prev = Some p -> sel_headings (tag p) = true) ->
  sel_headings (tag h) = true ->
  headingStep html (res, levelAfter prev) h
  = (res ++ skippedHeadings html prev [h], levelAfter (Some h)).
Proof.
  intros Hprev Hh. destruct prev as [p|]; cbn [levelAfter skippedHeadings].
  - rewrite headingStep_next by auto.
    destruct (_ <? _)%Z; now rewrite ?app_nil_r.
  - rewrite headingStep_first, app_nil_r.
    now destruct (heading_level_parsed h Hh) as (-> & _).
Qed.

Lemma headingLoop_skipped (hs : list Element) :
  Forall (fun e => sel_headings (tag e) = true) hs ->
  forall res prev,
    (forall p, prev = Some p -> sel_headings (tag p) = true) ->
    fst (fold_left (headingStep html) hs (res, levelAfter prev))
    = res ++ skippedHeadings html prev hs.
Proof.
  induction 1 as [|h hs Hh _ IH]; intros res prev Hprev.
  - simpl. now rewrite app_nil_r.
  - cbn [fold_left]. rewrite headingStep_skipped by assumption.
    rewrite IH by (now intros p [= <-]).
    rewrite <- app_assoc. f_equal.
    destruct prev as [p|]; simpl; [|reflexivity].
    now destruct (_ <? _)%Z.
Qed.

Lemma headingLoop_start (hs : list Element) :
  Forall (fun e => sel_headings (tag e) = true) hs ->
  fst (headingLoop html hs) = skippedHeadings html None hs.
Proof.
  intros Hall. unfold headingLoop.
  refine (@headingLoop_skipped _ Hall [] None _). discriminate.
Qed.

Lemma headingLoop_snoc (pre : list Element) (h : Element) :
  headingLoop html (pre ++ [h]) = headingStep html (headingLoop html pre) h.
Proof. unfold headingLoop. now rewrite fold_left_app. Qed.

Lemma skippedHeadings_descending (hs : list Element) :
  forall prev,
    (forall p, prev = Some p -> descending (p :: hs)) ->
    (prev = None -> descending hs) ->
    skippedHeadings html prev hs = [].
Proof.
  induction hs as [|h hs IH]; intros prev Hsome Hnone; [reflexivity|].
  assert (Hd : descending (h :: hs)).
  { destruct prev as [p|]; [|auto].
    intros pre x y post E. apply (Hsome p eq_refl (p :: pre) x y post).
    now rewrite E. }
  simpl. rewrite (IH (Some h)); [|now intros p [= <-]|discriminate].
  rewrite app_nil_r. destruct prev as [p|]; [|reflexivity].
  assert (L := Hsome p eq_refl [] p h hs eq_refl).
  destruct (Z.ltb_spec (headingLevel p + 1) (headingLevel h));
    [lia|reflexivity].
Qed.

Lemma skippedHeadings_app (hs1 hs2 : list Element) (h : Element) :
  forall prev,
    skippedHeadings html prev (hs1 ++ h :: hs2)
    = skippedHeadings html prev (hs1 ++ [h])
      ++ skippedHeadings html (Some h) hs2.
Proof.
  induction hs1 as [|x hs1 IH]; intros prev; simpl.
  - now rewrite app_nil_r.
  - rewrite IH. now rewrite app_assoc.
Qed.

End HeadingFacts.

Lemma checkHeadings_skipped (doc : Document) :
  checkHeadings doc
  = skippedHeadings (isHTMLDocument doc) None
      (elementsOfType headingTags doc).
Proof.
  unfold checkHeadings. rewrite <- querySelectorAll_headings.
  apply headingLoop_start. apply querySelectorAll_sel.
Qed.

Lemma headings_selected (doc : Document) :
  Forall (fun e => sel_headings (tag e) = true)
    (elementsOfType headingTags doc).
Proof.
  rewrite <- querySelectorAll_headings. apply querySelectorAll_sel.
Qed.

(** C2.  The positions the scan visits are the H1 to H6 elements of the
    document, in document order.  Its findings are those of the rule of
    the specification on these headings; a descending sequence of headings
    yields none.  At every position the loop sets [lastLevel] to the level
    of the heading at that position, and pushes a finding for it exactly
    when there is a heading before it whose level plus one is below its
    own; what the loop has pushed up to a position is the start of the
    final list of findings. *)
Theorem checkHeadings_flags_skips (doc : Document) :
  querySelectorAll sel_headings doc = elementsOfType headingTags doc
  /\ checkHeadings doc
     = skippedHeadings (isHTMLDocument doc) None
         (elementsOfType headingTags doc)
  /\ (descending (elementsOfType headingTags doc) ->
      checkHeadings doc = [])
  /\ (forall pre cur post,
        elementsOfType headingTags doc = pre ++ cur :: post ->
        headingLoop (isHTMLDocument doc) (pre ++ [cur])
        = headingStep (isHTMLDocument doc)
            (headingLoop (isHTMLDocument doc) pre) cur
        /\ snd (headingStep (isHTMLDocument doc)
                  (headingLoop (isHTMLDocument doc) pre) cur)
           = Some (headingLevel cur)
        /\ (pre = [] ->
            fst (headingStep (isHTMLDocument doc)
                   (headingLoop (isHTMLDocument doc) pre) cur)
            = fst (headingLoop (isHTMLDocument doc) pre))
        /\ (forall pre' prev,
              pre = pre' ++ [prev] ->
              if (headingLevel prev + 1 <? headingLevel cur)%Z then
                fst (headingStep (isHTMLDocument doc)
                       (headingLoop (isHTMLDocument doc) pre) cur)
                = fst (headingLoop (isHTMLDocument doc) pre)
                  ++ [HeadingIssue cur
                        (tagName (isHTMLDocument doc) (tag cur))
                        (js "H" ++ numToString (Some (headingLevel prev)))]
              else
                fst (headingStep (isHTMLDocument doc)
                       (headingLoop (isHTMLDocument doc) pre) cur)
                = fst (headingLoop (isHTMLDocument doc) pre))
        /\ checkHeadings doc
           = fst (headingStep (isHTMLDocument doc)
                    (headingLoop (isHTMLDocument doc) pre) cur)
             ++ skippedHeadings (isHTMLDocument doc) (Some cur) post).
Proof.
  set (html := isHTMLDocument doc).
  pose proof (headings_selected doc) as Hall.
  pose proof (checkHeadings_skipped doc) as Hglobal. fold html in Hglobal.
  split; [apply querySelectorAll_headings|].
  split; [exact Hglobal|]. split.
  - intros Hd. rewrite Hglobal.
    apply skippedHeadings_descending; [discriminate|auto].
  - intros pre cur post E. rewrite E in Hall.
    assert (Hpc : Forall (fun e => sel_headings (tag e) = true)
                    (pre ++ [cur])).
    { apply Forall_app in Hall as [Ha Hb]. apply Forall_app. split; auto.
      constructor; [now apply Forall_inv in Hb|constructor]. }
    apply Forall_app in Hall as [Hpre Hcur].
    apply Forall_inv in Hcur.
    split; [apply headingLoop_snoc|].
    split; [now apply headingStep_snd|]. split; [|split].
    + intros ->. reflexivity.
    + intros pre' prev ->. apply Forall_app in Hpre as [_ Hprev].
      apply Forall_inv in Hprev.
      rewrite headingLoop_snoc.
      destruct (headingLoop html pre') as [res last] eqn:El.
      assert (Es : headingStep html (res, last) prev
                   = (fst (headingStep html (res, last) prev),
                      Some (headingLevel prev))).
      { rewrite <- (headingStep_snd html (res, last) prev Hprev).
        now destruct (headingStep html (res, last) prev). }
      rewrite Es, headingStep_next by assumption. simpl.
      now destruct (_ <? _)%Z.
    + rewrite Hglobal, E, skippedHeadings_app.
      rewrite <- headingLoop_snoc. now rewrite (headingLoop_start html Hpc).
Qed.

Example checkHeadings_example :
  let h t n := mkElement n t None [] (Some 0%nat) (js "x")
                 (mkComputedStyle [] []) None in
  let doc := mkDocument true (h (OTHER (js "html")) 0%nat)
               [h H1 1; h H3 2; h H2 3; h H1 4; h H4 5]%nat in
  checkHeadings doc
  = [ HeadingIssue (h H3 2%nat) (js "H3") (js "H1");
      HeadingIssue (h H4 5%nat) (js "H4") (js "H1") ].
Proof. reflexivity. Qed.

(** In an XML document the tag name is recorded as it is written. *)
Example checkHeadings_example_xml :
  let h t n := mkElement n t None [] (Some 0%nat) (js "x")
                 (mkComputedStyle [] []) None in
  let doc := mkDocument false (h (OTHER (js "html")) 0%nat)
               [h H1 1; h H3 2]%nat in
  checkHeadings doc = [ HeadingIssue (h H3 2%nat) (js "h3") (js "H1") ].
Proof. reflexivity. Qed.

(** ** Background resolution *)

(** Induction along the chain of [parentElement] links. *)
Lemma Element_chain_ind (Q : Element -> Prop) :
  (forall e, parentElement e = None -> Q e) ->
  (forall e parent, parentElement e = Some parent -> Q parent -> Q e) ->
  forall e, Q e.
Proof.
  intros Htop Hstep. fix IH 1. intros [n t a s o tc cs par].
  destruct par as [parent|].
  - apply (Hstep (mkElement n t a s o tc cs (Some parent)) parent);
      [reflexivity|apply IH].
  - apply Htop. reflexivity.
Qed.

Lemma walkBackground_unfold (root : nat) (current : Element) :
  walkBackground root current
  = if Nat.eqb (nodeId current) root then white
    else if notTransparent (backgroundColor (getComputedStyle current))
         then backgroundColor (getComputedStyle current)
         else match parentElement current with
              | Some parent => walkBackground root parent
              | None => white
              end.
Proof. destruct current; reflexivity. Qed.

Lemma ancestorsOrSelf_unfold (el : Element) :
  ancestorsOrSelf el
  = el :: match parentElement el with
          | Some parent => ancestorsOrSelf parent
          | None => []
          end.
Proof. destruct el; reflexivity. Qed.

(** The walk returns the background of the first element, from the element
    itself upwards, at which it stops, unless that element is the root or
    there is none; it then returns white. *)
Lemma walkBackground_first (root : nat) (el : Element) :
  walkBackground root el
  = match find (walkStops root) (ancestorsOrSelf el) with
    | Some e =>
        if Nat.eqb (nodeId e) root then white
        else backgroundColor (getComputedStyle e)
    | None => white
    end.
Proof.
  induction el as [e Hpar|e parent Hpar IH] using Element_chain_ind;
    rewrite walkBackground_unfold, ancestorsOrSelf_unfold, Hpar;
    cbn [find]; unfold walkStops at 1;
    destruct (Nat.eqb (nodeId e) root) eqn:Eroot; cbn [orb];
    try (rewrite Eroot; reflexivity);
    destruct (notTransparent _) eqn:Ebg;
    try (rewrite Eroot; reflexivity).
  - reflexivity.
  - exact IH.
Qed.

(** The two strings the loop compares with are fully transparent, and an
    opaque colour is not. *)
Lemma fullyTransparent_examples :
  fullyTransparent (js "rgba(0, 0, 0, 0)") = true
  /\ fullyTransparent (js "transparent") = true
  /\ fullyTransparent (js "rgba(255, 255, 255, 0)") = true
  /\ fullyTransparent (js "rgba(255, 0, 0, 0.1)") = false
  /\ fullyTransparent (js "rgb(0, 0, 0)") = false.
Proof. repeat split. Qed.

(** C7, at an input where the code departs from the specification: the paragraph's
    own background has alpha 0, so it is fully transparent, and the body
    behind it is black.  The walk nevertheless stops at the paragraph and
    returns its fully transparent background, where the first background
    that is not fully transparent is the black of the body.  With the
    paragraph's background spelled [transparent] the walk goes on to the
    body. *)
Theorem getBackgroundColor_keeps_zero_alpha :
  getBackgroundColor sampleDarkDocument sampleClearParagraph
  = js "rgba(255, 255, 255, 0)"
  /\ fullyTransparent
       (getBackgroundColor sampleDarkDocument sampleClearParagraph) = true
  /\ find (fun e => negb (fullyTransparent
                            (backgroundColor (getComputedStyle e))))
       (ancestorsOrSelf sampleClearParagraph) = Some sampleDarkBody
  /\ getBackgroundColor sampleDarkDocument sampleTransparentParagraph
     = js "rgb(0, 0, 0)".
Proof. repeat split. Qed.

(** ** Scan 3 *)

Section ContrastFacts.

Variable Math_pow : float -> float -> float.

Lemma checkContrast_filter (doc : Document) :
  checkContrast Math_pow doc
  = map (fun el => ContrastIssue el (color (getComputedStyle el))
                     (getBackgroundColor doc el))
      (filter (contrastFlagged Math_pow doc) (querySelectorAll sel_text doc)).
Proof.
  unfold checkContrast.
  rewrite (fold_push (contrastStep Math_pow doc)
             (contrastFlagged Math_pow doc)
             (fun el => ContrastIssue el (color (getComputedStyle el))
                          (getBackgroundColor doc el))); [reflexivity|].
  intros res el. unfold contrastStep, contrastFlagged.
  destruct (offsetParent el); [|reflexivity].
  destruct (jsstring_eqb (trim (textContent el)) []); [reflexivity|].
  cbn [negb andb]. reflexivity.
Qed.

Lemma checkContrast_elements (doc : Document) :
  map element (checkContrast Math_pow doc)
  = filter (contrastFlagged Math_pow doc) (querySelectorAll sel_text doc).
Proof.
  rewrite checkContrast_filter, map_map. apply map_id.
Qed.

Lemma contrastFlagged_unfold (doc : Document) (el : Element) :
  contrastFlagged Math_pow doc el
  = match offsetParent el with
    | None => false
    | Some _ =>
        negb (forallb isWhiteSpace (textContent el))
        && lightOnLight
             (getLuminance Math_pow (color (getComputedStyle el)))
             (getLuminance Math_pow (getBackgroundColor doc el))
    end.
Proof.
  unfold contrastFlagged. destruct (offsetParent el); [|reflexivity].
  f_equal. f_equal. apply eq_true_iff_eq.
  now rewrite jsstring_eqb_nil, trim_nil.
Qed.

Lemma checkContrast_In (doc : Document) (el : Element) :
  In el (map element (checkContrast Math_pow doc))
  <-> In el (allElements doc) /\ In (tag el) textTags
      /\ contrastFlagged Math_pow doc el = true.
Proof.
  rewrite checkContrast_elements, querySelectorAll_text.
  unfold elementsOfType. rewrite !filter_In, hasType_In. tauto.
Qed.

Lemma getLuminance_white :
  Math_pow 1 2.4 = 1%float -> getLuminance Math_pow white = 1%float.
Proof.
  intros Hpow. unfold getLuminance. rewrite parseRgb_white. cbn [map nth].
  rewrite transfer_one, Hpow. reflexivity.
Qed.

(** C4, at an input where the code departs from the specification: a
    paragraph in fixed position with white text on the default white
    background.  It is one of the text-bearing elements of the document,
    it is displayed and its text is not blank, and both luminances are 1,
    above the two thresholds; but its [offsetParent] is null, so the scan
    takes it for hidden and reports nothing.  No element without
    [offsetParent] is ever reported.  The same paragraph in normal flow is
    reported. *)
Theorem fixed_position_text_is_skipped :
  In sampleFixedParagraph (elementsOfType textTags sampleFixedDocument)
  /\ forallb isWhiteSpace (textContent sampleFixedParagraph) = false
  /\ (Math_pow 1 2.4 = 1%float ->
      lightOnLight
        (getLuminance Math_pow
           (color (getComputedStyle sampleFixedParagraph)))
        (getLuminance Math_pow
           (getBackgroundColor sampleFixedDocument sampleFixedParagraph))
      = true)
  /\ checkContrast Math_pow sampleFixedDocument = []
  /\ (forall doc el,
        offsetParent el = None ->
        ~ In el (map element (checkContrast Math_pow doc)))
  /\ (Math_pow 1 2.4 = 1%float ->
      map element (checkContrast Math_pow samplePlainDocument)
      = [sampleWhiteParagraph]).
Proof.
  split; [simpl; auto|]. split; [reflexivity|]. split; [|split; [|split]].
  - intros Hpow.
    change (getBackgroundColor sampleFixedDocument sampleFixedParagraph)
      with white.
    change (color (getComputedStyle sampleFixedParagraph)) with white.
    now rewrite (getLuminance_white Hpow).
  - reflexivity.
  - intros doc el Hnone Hin. apply checkContrast_In in Hin as (_ & _ & Hf).
    rewrite contrastFlagged_unfold, Hnone in Hf. discriminate.
  - intros Hpow. rewrite checkContrast_elements.
    change (querySelectorAll sel_text samplePlainDocument)
      with [sampleWhiteParagraph].
    cbn [filter]. rewrite contrastFlagged_unfold.
    change (getBackgroundColor samplePlainDocument sampleWhiteParagraph)
      with white.
    change (color (getComputedStyle sampleWhiteParagraph)) with white.
    rewrite (getLuminance_white Hpow). reflexivity.
Qed.

(** X24.  A text-bearing element of the document (paragraph, span, link,
    list item, table cell or header, label, generic block, heading) whose
    [offsetParent] is not null and whose text is not only white space is
    reported exactly when the luminance of its text colour exceeds 0.7 and
    the luminance of its resolved background exceeds 0.9; so it is reported
    at luminances 0.95 and 0.98 and not at 0.95 and 0.5.  A text-bearing
    element whose [offsetParent] is null or whose text is only white space
    is never reported. *)
Theorem checkContrast_flags_light_on_light (doc : Document) (el : Element) :
  In el (allElements doc) -> In (tag el) textTags ->
  (offsetParent el <> None ->
   forallb isWhiteSpace (textContent el) = false ->
   (In el (map element (checkContrast Math_pow doc))
    <-> (0.7 <? getLuminance Math_pow (color (getComputedStyle el)))%float
        = true
        /\ (0.9 <? getLuminance Math_pow (getBackgroundColor doc el))%float
           = true)
   /\ (getLuminance Math_pow (color (getComputedStyle el)) = 0.95%float ->
       getLuminance Math_pow (getBackgroundColor doc el) = 0.98%float ->
       In el (map element (checkContrast Math_pow doc)))
   /\ (getLuminance Math_pow (color (getComputedStyle el)) = 0.95%float ->
       getLuminance Math_pow (getBackgroundColor doc el) = 0.5%float ->
       ~ In el (map element (checkContrast Math_pow doc))))
  /\ (offsetParent el = None
      \/ forallb isWhiteSpace (textContent el) = true ->
      ~ In el (map element (checkContrast Math_pow doc))).
Proof.
  intros Hall Htag.
  assert (Hin : In el (map element (checkContrast Math_pow doc))
                <-> contrastFlagged Math_pow doc el = true).
  { rewrite checkContrast_In. tauto. }
  rewrite Hin, contrastFlagged_unfold. split.
  - intros Hbox Htext. destruct (offsetParent el); [|congruence].
    rewrite Htext. cbn [negb andb]. unfold lightOnLight. split; [|split].
    + apply andb_true_iff.
    + intros -> ->. reflexivity.
    + intros -> ->. discriminate.
  - intros [Hbox|Htext].
    + rewrite Hbox. discriminate.
    + destruct (offsetParent el); [|discriminate].
      rewrite Htext. discriminate.
Qed.

End ContrastFacts.

Lemma checkContrast_flags_light_on_light_witness :
  In sampleWhiteParagraph
    (map element (checkContrast samplePow samplePlainDocument)).
Proof.
  destruct (@checkContrast_flags_light_on_light samplePow
              samplePlainDocument sampleWhiteParagraph) as [H _].
  - simpl. auto.
  - simpl. auto.
  - destruct H as [H _]; [discriminate|reflexivity|].
    apply H. split; reflexivity.
Defined.

(** ** The highlighter *)

Lemma setStyle_same (e : nat) (s : Highlighter.InlineStyle) st :
  Highlighter.setStyle e s st e = s.
Proof. unfold Highlighter.setStyle. now rewrite Nat.eqb_refl. Qed.

Lemma setStyle_other (e x : nat) (s : Highlighter.InlineStyle) st :
  x <> e -> Highlighter.setStyle e s st x = st x.
Proof.
  intros H. unfold Highlighter.setStyle.
  now apply Nat.eqb_neq in H as ->.
Qed.

(** X10.  One activation on a page without pending timers: once the delay
    has passed, the timer has written back to the element's [style.outline]
    and [style.backgroundColor] the two strings that were read from them
    before the highlight; nothing was written to any other element and no
    timer is left.  The element may have been removed from the document in
    between. *)
Lemma highlight_then_restore (w : Highlighter.Page) (e : nat) (dt : Z)
  (removed : bool) :
  Highlighter.timers w = [] -> (2000 <= dt)%Z ->
  let evs := Highlighter.Activate e
             :: (if removed then [Highlighter.Remove e] else [])
             ++ [Highlighter.Elapse dt] in
  Highlighter.style (Highlighter.run evs w) e = Highlighter.style w e
  /\ (forall x, x <> e ->
        Highlighter.style (Highlighter.run evs w) x = Highlighter.style w x)
  /\ Highlighter.timers (Highlighter.run evs w) = [].
Proof.
  intros Ht Hdt evs. subst evs.
  assert (Hdue : Highlighter.isDue (Highlighter.now w + dt)
                   (Highlighter.mkTimer (Highlighter.now w + 2000) e
                      (Highlighter.outline (Highlighter.style w e))
                      (Highlighter.backgroundColor (Highlighter.style w e)))
                 = true).
  { unfold Highlighter.isDue. simpl. apply Z.leb_le. lia. }
  destruct removed; unfold Highlighter.run; cbn [app fold_left Highlighter.step];
    unfold Highlighter.elapse, Highlighter.removeElement,
      Highlighter.highlightElement;
    cbn [Highlighter.timers Highlighter.now Highlighter.style];
    rewrite Ht; cbn [app filter]; rewrite Hdue; cbn [negb fold_left];
    unfold Highlighter.restore;
    cbn [Highlighter.style Highlighter.timers Highlighter.el
         Highlighter.oldOutline Highlighter.oldBg];
    (repeat split;
     [ rewrite setStyle_same; now destruct (Highlighter.style w e)
     | intros x Hx; now rewrite !setStyle_other by assumption ]).
Qed.

(** X11.  Two activations of the same element less than two seconds apart,
    on a page without pending timers: once both timers have run, the element
    carries the highlight for good. *)
Lemma highlight_overlap_sticks (w : Highlighter.Page) (e : nat) (dt : Z) :
  Highlighter.timers w = [] -> (0 <= dt < 2000)%Z ->
  let final :=
    Highlighter.run
      [ Highlighter.Activate e; Highlighter.Elapse dt;
        Highlighter.Activate e; Highlighter.Elapse 2000 ] w in
  Highlighter.style final e = Highlighter.highlight
  /\ Highlighter.timers final = [].
Proof.
  intros Ht Hdt final. subst final.
  assert (D1 : forall o b,
             Highlighter.isDue (Highlighter.now w + dt)
               (Highlighter.mkTimer (Highlighter.now w + 2000) e o b)
             = false).
  { intros. unfold Highlighter.isDue. simpl. apply Z.leb_gt. lia. }
  assert (D2 : forall o b,
             Highlighter.isDue (Highlighter.now w + dt + 2000)
               (Highlighter.mkTimer (Highlighter.now w + 2000) e o b)
             = true).
  { intros. unfold Highlighter.isDue. simpl. apply Z.leb_le. lia. }
  assert (D3 : forall o b,
             Highlighter.isDue (Highlighter.now w + dt + 2000)
               (Highlighter.mkTimer (Highlighter.now w + dt + 2000) e o b)
             = true).
  { intros. unfold Highlighter.isDue. simpl. apply Z.leb_le. lia. }
  unfold Highlighter.run. cbn [fold_left Highlighter.step].
  unfold Highlighter.elapse, Highlighter.highlightElement.
  cbn [Highlighter.timers Highlighter.now Highlighter.style].
  rewrite Ht. cbn [app filter]. rewrite D1.
  cbn [negb fold_left app filter Highlighter.timers Highlighter.now
       Highlighter.style].
  rewrite D2, D3. cbn [negb fold_left].
  unfold Highlighter.restore.
  cbn [Highlighter.style Highlighter.timers Highlighter.el
       Highlighter.oldOutline Highlighter.oldBg].
  rewrite !setStyle_same. split; reflexivity.
Qed.

(** C8, at an input where the code departs from the specification: the same entry
    is activated twice, the second time half a second after the first.  The
    second activation captures the highlight as the style to restore, so
    when both timers have run the element keeps the red outline and tint,
    although it had neither to begin with. *)
Theorem highlight_twice_is_permanent :
  let final :=
    Highlighter.run
      [ Highlighter.Activate 7; Highlighter.Elapse 500;
        Highlighter.Activate 7; Highlighter.Elapse 1500;
        Highlighter.Elapse 500; Highlighter.Elapse 60000 ] samplePage in
  Highlighter.style samplePage 7 = Highlighter.mkInlineStyle [] []
  /\ Highlighter.style final 7 = Highlighter.highlight
  /\ Highlighter.timers final = [].
Proof. repeat split. Qed.

(** ** The entries of a report section *)

Lemma update_last {A} (l : list A) (x : A) (f : A -> A) :
  ReportSection.update (l ++ [x]) (List.length l) f = l ++ [f x].
Proof. induction l as [|y l IH]; simpl; [reflexivity|now rewrite IH]. Qed.

Lemma entriesFrom_length fmt (l : list Issue) :
  forall k, List.length (entriesFrom fmt k l) = List.length l.
Proof. induction l as [|x l IH]; intros k; simpl; [reflexivity|now rewrite IH]. Qed.

Lemma entriesFrom_snoc fmt (l : list Issue) (x : Issue) :
  forall k,
    entriesFrom fmt k (l ++ [x])
    = entriesFrom fmt k l ++ [entry fmt (k + List.length l) x].
Proof.
  induction l as [|y l IH]; intros k; simpl.
  - now rewrite Nat.add_0_r.
  - rewrite IH. now rewrite Nat.add_succ_r.
Qed.

Lemma entriesFrom_nth fmt (l : list Issue) :
  forall k n issue,
    nth_error l n = Some issue ->
    nth_error (entriesFrom fmt k l) n = Some (entry fmt (k + n) issue).
Proof.
  induction l as [|x l IH]; intros k [|n] issue H; simpl in *;
    try discriminate.
  - injection H as ->. now rewrite Nat.add_0_r.
  - rewrite (IH (S k) n issue H). now rewrite Nat.add_succ_r.
Qed.

(** One iteration of the loop, followed by [i++]. *)
Lemma iteration_heapAfter fmt (done rest : list Issue) (x : Issue) :
  let h1 := ReportSection.iteration fmt (done ++ x :: rest)
              (heapAfter fmt done) in
  {| ReportSection.fscope :=
       ReportSection.mkFunctionScope
         (S (ReportSection.var_i (ReportSection.fscope h1)))
         (ReportSection.var_li (ReportSection.fscope h1));
     ReportSection.scopes := ReportSection.scopes h1;
     ReportSection.lis := ReportSection.lis h1;
     ReportSection.children := ReportSection.children h1 |}
  = heapAfter fmt (done ++ [x]).
Proof.
  intros h1. subst h1. unfold ReportSection.iteration.
  cbn [heapAfter ReportSection.fscope ReportSection.var_i].
  rewrite nth_error_app2 by lia. rewrite Nat.sub_diag. cbn [nth_error].
  unfold ReportSection.iife, ReportSection.addClick, ReportSection.addKeydown.
  cbn [ReportSection.fscope ReportSection.var_li ReportSection.var_i
       ReportSection.scopes ReportSection.lis ReportSection.children].
  cbn [heapAfter ReportSection.lis ReportSection.scopes
       ReportSection.children].
  rewrite update_last.
  cbn [ReportSection.li_textContent ReportSection.clickListeners
       ReportSection.keydownListeners app].
  rewrite update_last.
  cbn [ReportSection.li_textContent ReportSection.clickListeners
       ReportSection.keydownListeners app].
  rewrite entriesFrom_length, length_map.
  unfold heapAfter. rewrite length_app, map_app, entriesFrom_snoc, seq_app.
  cbn [List.length map seq Nat.add].
  replace (List.length done + 1)%nat with (S (List.length done)) by lia.
  replace (S (List.length done) - 1)%nat with (List.length done) by lia.
  destruct (done ++ [x]) eqn:E; [now destruct done|].
  reflexivity.
Qed.

Lemma loop_heapAfter fmt (rest : list Issue) :
  forall done fuel,
    (List.length rest <= fuel)%nat ->
    ReportSection.loop fuel fmt (done ++ rest) (heapAfter fmt done)
    = heapAfter fmt (done ++ rest).
Proof.
  induction rest as [|x rest IH]; intros done fuel Hfuel.
  - rewrite app_nil_r. destruct fuel as [|fuel]; [reflexivity|].
    cbn [ReportSection.loop heapAfter ReportSection.fscope
         ReportSection.var_i].
    now rewrite Nat.ltb_irrefl.
  - destruct fuel as [|fuel]; [simpl in Hfuel; lia|].
    cbn [ReportSection.loop].
    replace (Nat.ltb _ _) with true.
    + rewrite iteration_heapAfter.
      replace (done ++ x :: rest) with ((done ++ [x]) ++ rest)
        by (now rewrite <- app_assoc).
      apply IH. simpl in Hfuel. lia.
    + symmetry. apply Nat.ltb_lt. cbn [heapAfter ReportSection.fscope
                                        ReportSection.var_i].
      rewrite length_app. simpl. lia.
Qed.

Lemma createSection_heapAfter fmt (issues : list Issue) :
  ReportSection.createSection fmt issues = heapAfter fmt issues.
Proof.
  unfold ReportSection.createSection.
  exact (loop_heapAfter fmt issues [] (Nat.le_refl _)).
Qed.

(** C9.  In the list [createSection] builds, the entry at position [k]
    answers a click, and a press of Enter or of the space key, with one call
    of [highlightElement], on the element of the issue at position [k]; any
    other key calls nothing.  The shared variable [i] holds the number of
    issues by then. *)
Theorem entry_highlights_its_own_element
  (formatIssueFn : Issue -> jsstring) (issues : list Issue) (k : nat)
  (issue : Issue) :
  nth_error issues k = Some issue ->
  let h := ReportSection.createSection formatIssueFn issues in
  ReportSection.click h k = [element issue]
  /\ ReportSection.keydown h k (js "Enter") = [element issue]
  /\ ReportSection.keydown h k (js " ") = [element issue]
  /\ (forall key, key <> js "Enter" -> key <> js " " ->
                  ReportSection.keydown h k key = [])
  /\ ReportSection.var_i (ReportSection.fscope h) = List.length issues.
Proof.
  intros Hk h. subst h. rewrite createSection_heapAfter.
  assert (Hlt : (k < List.length issues)%nat)
    by (apply nth_error_Some; congruence).
  assert (Hchild : nth_error (seq 0 (List.length issues)) k = Some k).
  { rewrite nth_error_nth' with (d := 0%nat) by (now rewrite length_seq).
    now rewrite seq_nth. }
  assert (Hli := entriesFrom_nth formatIssueFn issues 0 k Hk).
  assert (Hscope : nth_error
            (map (fun i => ReportSection.mkClosureScope (element i)) issues) k
          = Some (ReportSection.mkClosureScope (element issue)))
    by (now rewrite nth_error_map, Hk).
  unfold ReportSection.click, ReportSection.keydown.
  cbn [heapAfter ReportSection.children ReportSection.lis
       ReportSection.fscope ReportSection.var_i].
  rewrite Hchild, Hli. cbn [Nat.add entry ReportSection.clickListeners
                            ReportSection.keydownListeners flat_map].
  unfold ReportSection.invoke. cbn [heapAfter ReportSection.scopes].
  rewrite Hscope. repeat split.
  intros key H1 H2.
  destruct (jsstring_eqb key (js "Enter")) eqn:E1;
    [apply jsstring_eqb_eq in E1; contradiction|].
  destruct (jsstring_eqb key (js " ")) eqn:E2;
    [apply jsstring_eqb_eq in E2; contradiction|].
  reflexivity.
Qed.

Lemma entry_highlights_its_own_element_witness :
  ReportSection.click
    (ReportSection.createSection (fun _ => js "entry")
       [ AltIssue sampleHtml []; AltIssue samplePlainBody [];
         AltIssue sampleWhiteParagraph [] ]) 1
  = [samplePlainBody].
Proof.
  apply (entry_highlights_its_own_element (fun _ => js "entry")
           [ AltIssue sampleHtml []; AltIssue samplePlainBody [];
             AltIssue sampleWhiteParagraph [] ] 1 eq_refl).
Defined.

(** ** The life cycle of the report panel *)

Lemma handleEsc_panels (key : jsstring) (d : Overlay.Page) (k : nat) :
  (List.length (Overlay.panels (Overlay.handleEsc key d k))
   <= List.length (Overlay.panels d))%nat.
Proof.
  unfold Overlay.handleEsc. destruct (jsstring_eqb key (js "Escape")); [|lia].
  destruct (Overlay.panels d) eqn:E; simpl; rewrite ?E; simpl; lia.
Qed.

Lemma pressKey_panels (key : jsstring) (ls : list nat) :
  forall d,
    (List.length (Overlay.panels (fold_left (Overlay.handleEsc key) ls d))
     <= List.length (Overlay.panels d))%nat.
Proof.
  induction ls as [|k ls IH]; intros d; simpl; [lia|].
  specialize (IH (Overlay.handleEsc key d k)).
  pose proof (handleEsc_panels key d k). lia.
Qed.

Lemma removeId_length (k : nat) (l : list nat) :
  (List.length (Overlay.removeId k l) <= List.length l)%nat.
Proof. apply filter_length_le. Qed.

Lemma step_panels (d : Overlay.Page) (ev : Overlay.Event) :
  (List.length (Overlay.panels d) <= 1)%nat ->
  (List.length (Overlay.panels (Overlay.step d ev)) <= 1)%nat.
Proof.
  intros H. destruct ev as [|k|key]; simpl.
  - rewrite length_app. destruct (Overlay.panels d) as [|p [|q rest]];
      simpl in *; lia.
  - pose proof (removeId_length k (Overlay.panels d)). lia.
  - pose proof (pressKey_panels key (Overlay.keydownListeners d) d).
    unfold Overlay.pressKey. lia.
Qed.

(** X16.  Whatever the sequence of scans, clicks on a close button and key
    presses, at most one panel is in the document; right after a scan there
    is exactly one. *)
Lemma at_most_one_panel (evs : list Overlay.Event) :
  (List.length (Overlay.panels (Overlay.run evs)) <= 1)%nat
  /\ List.length (Overlay.panels (Overlay.run (evs ++ [Overlay.Scan])))
     = 1%nat.
Proof.
  assert (H : forall d, (List.length (Overlay.panels d) <= 1)%nat ->
                        (List.length (Overlay.panels (fold_left Overlay.step evs d))
                         <= 1)%nat).
  { induction evs as [|ev evs IH]; intros d Hd; simpl; [assumption|].
    apply IH. now apply step_panels. }
  specialize (H Overlay.initial (Nat.le_0_l 1)). split; [exact H|].
  unfold Overlay.run in *. rewrite fold_left_app. simpl.
  rewrite length_app.
  destruct (Overlay.panels (fold_left Overlay.step evs Overlay.initial))
    as [|p [|q rest]]; simpl in *; lia.
Qed.

(** Every scan adds a keydown listener and removes none. *)
Lemma scans_accumulate_listeners (n : nat) :
  Overlay.keydownListeners (Overlay.run (repeat Overlay.Scan n)) = seq 0 n
  /\ Overlay.runs (Overlay.run (repeat Overlay.Scan n)) = n.
Proof.
  induction n as [|n [IH1 IH2]]; [split; reflexivity|].
  replace (repeat Overlay.Scan (S n))
    with (repeat Overlay.Scan n ++ [Overlay.Scan])
    by (now rewrite <- repeat_cons).
  rewrite seq_S.
  unfold Overlay.run in *. rewrite fold_left_app. simpl.
  rewrite IH1, IH2. split; reflexivity.
Qed.

(** C1, at inputs where the code departs from the specification.  Every scan adds a
    keydown listener, so [n] scans leave [n] of them.  After a second scan
    there is one panel, but the listener of the first scan is still
    registered next to the new one.  After a click on the close button the
    panel is gone and its listener is still registered.  Only the Escape
    key deregisters the listener; pressed after two scans it leaves a
    listener behind with no panel in the document. *)
Theorem escape_listener_outlives_panel :
  (forall n,
      List.length
        (Overlay.keydownListeners (Overlay.run (repeat Overlay.Scan n))) = n)
  /\ Overlay.panels (Overlay.run [Overlay.Scan; Overlay.Scan]) = [1%nat]
  /\ Overlay.keydownListeners (Overlay.run [Overlay.Scan; Overlay.Scan])
     = [0%nat; 1%nat]
  /\ Overlay.panels (Overlay.run [Overlay.Scan; Overlay.ClickClose 0]) = []
  /\ Overlay.keydownListeners
       (Overlay.run [Overlay.Scan; Overlay.ClickClose 0]) = [0%nat]
  /\ Overlay.panels
       (Overlay.run [Overlay.Scan; Overlay.PressKey (js "Escape")]) = []
  /\ Overlay.keydownListeners
       (Overlay.run [Overlay.Scan; Overlay.PressKey (js "Escape")]) = []
  /\ Overlay.panels
       (Overlay.run [Overlay.Scan; Overlay.Scan;
                     Overlay.PressKey (js "Escape")]) = []
  /\ Overlay.keydownListeners
       (Overlay.run [Overlay.Scan; Overlay.Scan;
                     Overlay.PressKey (js "Escape")]) = [1%nat].
Proof.
  split; [|repeat split].
  intros n. destruct (scans_accumulate_listeners n) as [-> _].
  apply length_seq.
Qed.

(* ================================================================== *)
(** * Further properties                                               *)
(* ================================================================== *)

(** ** Whitespace-only alternative text *)

(** X1.  An image counts as missing its alternative text exactly when it
    has no [alt] attribute or the attribute holds nothing but white space
    (including the empty string); an attribute with any other character
    keeps the image out of the findings. *)
Theorem missingAlt_whitespace_only (doc : Document) (img : Element) :
  (missingAlt img = true
   <-> alt img = None
       \/ exists a, alt img = Some a /\ forallb isWhiteSpace a = true)
  /\ (forall a c,
        alt img = Some a -> In c a -> isWhiteSpace c = false ->
        ~ In img (map element (checkAltText doc))).
Proof.
  assert (Hiff : missingAlt img = true
                 <-> alt img = None
                     \/ exists a, alt img = Some a
                                  /\ forallb isWhiteSpace a = true).
  { unfold missingAlt. destruct (alt img) as [a|].
    - rewrite jsstring_eqb_nil, trim_nil. split.
      + intros H. right. eauto.
      + intros [H|(a' & [= <-] & H)]; [discriminate|assumption].
    - split; auto. }
  split; [exact Hiff|].
  intros a c Ha Hc Hws Hin.
  rewrite checkAltText_filter, map_map in Hin. simpl in Hin.
  rewrite map_id in Hin. apply filter_In in Hin as [_ Hmiss].
  apply Hiff in Hmiss as [H|(a' & E & H)]; [congruence|].
  assert (a' = a) by congruence. subst a'.
  rewrite forallb_forall in H. specialize (H c Hc). congruence.
Qed.

(** ** Truncation *)

Lemma length_js_dots : List.length (js "...") = 3%nat.
Proof. reflexivity. Qed.

(** The limit [truncate] works with. *)
Lemma truncate_cases (str : jsstring) (maxLen : option nat) :
  exists m,
    m = match maxLen with None => 60 | Some O => 60 | Some k => k end%nat
    /\ truncate str maxLen
       = if Nat.ltb m (List.length str) then firstn m str ++ js "..."
         else str.
Proof. eexists. split; reflexivity. Qed.

Lemma truncate_long (str : jsstring) (maxLen : option nat) :
  let limit :=
    match maxLen with None => 60 | Some O => 60 | Some k => k end%nat in
  (limit < List.length str)%nat ->
  truncate str maxLen = firstn limit str ++ js "..."
  /\ List.length (truncate str maxLen) = (limit + 3)%nat.
Proof.
  intros limit H.
  destruct (truncate_cases str maxLen) as (m & Em & E).
  fold limit in Em. subst m.
  assert (E' : truncate str maxLen = firstn limit str ++ js "...")
    by (rewrite E; now apply Nat.ltb_lt in H as ->).
  split; [exact E'|].
  rewrite E', length_app, length_firstn, length_js_dots. lia.
Qed.

Lemma truncate_short (str : jsstring) (maxLen : option nat) :
  let limit :=
    match maxLen with None => 60 | Some O => 60 | Some k => k end%nat in
  (List.length str <= limit)%nat -> truncate str maxLen = str.
Proof.
  intros limit H.
  destruct (truncate_cases str maxLen) as (m & Em & E).
  fold limit in Em. subst m. rewrite E. now apply Nat.ltb_ge in H as ->.
Qed.

Lemma truncate_length_le (str : jsstring) (maxLen : option nat) :
  (List.length (truncate str maxLen)
   <= match maxLen with None => 60 | Some O => 60 | Some k => k end + 3)%nat.
Proof.
  set (limit := match maxLen with None => 60 | Some O => 60 | Some k => k
                end%nat).
  destruct (Nat.lt_ge_cases limit (List.length str)) as [H|H].
  - destruct (truncate_long str maxLen H) as [_ ->]. fold limit. lia.
  - rewrite (truncate_short str maxLen H). lia.
Qed.

(** X2.  [truncate] returns a string of at most the limit plus three code
    units, where the limit is [maxLen], or 60 when [maxLen] is left out or
    is 0.  A string within the limit comes back unchanged; a longer one
    comes back as its first [limit] units followed by three dots, so the
    result is then three units longer than the limit.  Truncating a second
    time changes nothing. *)
Theorem truncate_bounds (str : jsstring) (maxLen : option nat) :
  let limit :=
    match maxLen with None => 60 | Some O => 60 | Some k => k end%nat in
  (List.length (truncate str maxLen) <= limit + 3)%nat
  /\ firstn limit (truncate str maxLen) = firstn limit str
  /\ ((List.length str <= limit)%nat -> truncate str maxLen = str)
  /\ ((limit < List.length str)%nat ->
      truncate str maxLen = firstn limit str ++ js "..."
      /\ List.length (truncate str maxLen) = (limit + 3)%nat)
  /\ truncate (truncate str maxLen) maxLen = truncate str maxLen.
Proof.
  intros limit. split; [apply truncate_length_le|].
  destruct (Nat.lt_ge_cases limit (List.length str)) as [H|H].
  - destruct (truncate_long str maxLen H) as [E L]. fold limit in E, L.
    assert (F : firstn limit (truncate str maxLen) = firstn limit str).
    { rewrite E, firstn_app, length_firstn.
      replace (limit - Nat.min limit (List.length str))%nat with 0%nat by lia.
      rewrite firstn_firstn, Nat.min_id. simpl. now rewrite app_nil_r. }
    repeat split.
    + exact F.
    + intros H'. lia.
    + exact E.
    + exact L.
    + assert (Hlt : (limit < List.length (truncate str maxLen))%nat)
        by (rewrite L; lia).
      destruct (truncate_long (truncate str maxLen) maxLen Hlt) as [E2 _].
      fold limit in E2. rewrite E2, F. now rewrite E.
  - rewrite (truncate_short str maxLen H). repeat split; auto; try lia.
    now apply truncate_short.
Qed.

Lemma length_js_app (a b : jsstring) :
  List.length (a ++ b) = (List.length a + List.length b)%nat.
Proof. apply length_app. Qed.

(** X3.  The line of an alt-text entry has at most 82 code units and the
    line of a contrast entry at most 59, however long the image address or
    the text of the element; both start with their fixed label. *)
Theorem formatIssue_bounded (e : Element) (src color bg : jsstring) :
  (List.length (formatIssue (AltIssue e src)) <= 82)%nat
  /\ (List.length (formatIssue (ContrastIssue e color bg)) <= 59)%nat
  /\ firstn 19 (formatIssue (AltIssue e src)) = js "Image missing alt: "
  /\ firstn 14 (formatIssue (ContrastIssue e color bg))
     = js "Low contrast: ".
Proof.
  pose proof (truncate_length_le src None) as H1.
  pose proof (truncate_length_le (textContent e) (Some 40%nat)) as H2.
  cbv beta iota in H1, H2.
  unfold formatIssue. repeat split.
  - rewrite length_app. change (List.length (js "Image missing alt: "))
      with 19%nat. lia.
  - rewrite !length_app. change (List.length (js "Low contrast: "))
      with 14%nat. change (List.length [34%N]) with 1%nat. lia.
Qed.

(** ** More on the heading scan *)

Section MoreHeadingFacts.

Variable html : bool.

Lemma skippedHeadings_In (hs : list Element) :
  forall prev f,
    In f (skippedHeadings html prev hs) ->
    exists pre p h post,
      (match prev with Some x => [x] | None => [] end) ++ hs
      = pre ++ p :: h :: post
      /\ f = HeadingIssue h (tagName html (tag h))
               (js "H" ++ numToString (Some (headingLevel p)))
      /\ (headingLevel p + 1 < headingLevel h)%Z.
Proof.
  induction hs as [|h hs IH]; intros prev f Hin; [contradiction|].
  simpl in Hin. apply in_app_or in Hin as [Hin|Hin].
  - destruct prev as [p|]; [|contradiction].
    destruct (Z.ltb_spec (headingLevel p + 1) (headingLevel h));
      [|contradiction].
    destruct Hin as [<-|[]]. exists [], p, h, hs. auto.
  - apply IH in Hin as (pre & p & x & post & E & Ef & Hl). simpl in E.
    exists ((match prev with Some y => [y] | None => [] end) ++ pre),
      p, x, post.
    repeat split; auto. rewrite <- app_assoc, <- E.
    now destruct prev.
Qed.

Lemma skippedHeadings_length (hs : list Element) :
  forall prev,
    (List.length (skippedHeadings html prev hs)
     <= match prev with
        | Some _ => List.length hs
        | None => List.length hs - 1
        end)%nat.
Proof.
  induction hs as [|h hs IH]; intros prev; simpl.
  - destruct prev; lia.
  - rewrite length_app. specialize (IH (Some h)). simpl in IH.
    destruct prev as [p|]; simpl.
    + destruct (_ <? _)%Z; simpl; lia.
    + lia.
Qed.

(** X5.  The scan is local: cut a sequence of headings at any heading, and
    the findings of the whole are the findings of the part up to and
    including that heading followed by the findings of the part from that
    heading on. *)
Theorem headingLoop_split (hs1 hs2 : list Element) (h : Element) :
  Forall (fun e => sel_headings (tag e) = true) (hs1 ++ h :: hs2) ->
  fst (headingLoop html (hs1 ++ h :: hs2))
  = fst (headingLoop html (hs1 ++ [h])) ++ fst (headingLoop html (h :: hs2)).
Proof.
  intros Hall.
  assert (H1 : Forall (fun e => sel_headings (tag e) = true) (hs1 ++ [h])).
  { apply Forall_app in Hall as [Ha Hb]. apply Forall_app. split; auto.
    constructor; [now apply Forall_inv in Hb|constructor]. }
  assert (H2 : Forall (fun e => sel_headings (tag e) = true) (h :: hs2))
    by (now apply Forall_app in Hall as [_ Hb]).
  rewrite (headingLoop_start html Hall), (headingLoop_start html H1),
    (headingLoop_start html H2).
  rewrite skippedHeadings_app. reflexivity.
Qed.

End MoreHeadingFacts.

(** X4.  Every finding of the heading scan is for a heading of level 3 or
    more that directly follows, among the H1 to H6 elements of the
    document, a heading of level 4 or less; it records the tag name of the
    heading and the letter H with the level of the heading before it.  So
    an H1 or H2 is never reported, nor is the first heading of the
    document; a document with headings has fewer findings than headings,
    and a document without headings has none. *)
Theorem checkHeadings_findings_shape (doc : Document) :
  (forall f,
      In f (checkHeadings doc) ->
      exists pre p h post,
        elementsOfType headingTags doc = pre ++ p :: h :: post
        /\ f = HeadingIssue h (tagName (isHTMLDocument doc) (tag h))
                 (js "H" ++ numToString (Some (headingLevel p)))
        /\ (3 <= headingLevel h <= 6)%Z
        /\ (1 <= headingLevel p <= 4)%Z)
  /\ (elementsOfType headingTags doc <> [] ->
      (List.length (checkHeadings doc)
       < List.length (elementsOfType headingTags doc))%nat)
  /\ (elementsOfType headingTags doc = [] -> checkHeadings doc = []).
Proof.
  rewrite checkHeadings_skipped. split; [|split].
  - intros f Hin.
    apply skippedHeadings_In in Hin as (pre & p & h & post & E & Ef & Hl).
    simpl in E. exists pre, p, h, post. split; [exact E|]. split; [exact Ef|].
    pose proof (headings_selected doc) as Hall.
    rewrite E in Hall. apply Forall_app in Hall as [_ Hall].
    inversion Hall as [|? ? Hp Hall']; subst.
    apply Forall_inv in Hall'.
    destruct (heading_level_parsed true p Hp) as (_ & Bp).
    destruct (heading_level_parsed true h Hall') as (_ & Bh).
    lia.
  - intros Hne.
    pose proof (skippedHeadings_length (isHTMLDocument doc)
                  (elementsOfType headingTags doc) None) as L.
    cbv beta iota in L.
    destruct (elementsOfType headingTags doc); [congruence|].
    simpl in *. lia.
  - intros ->. reflexivity.
Qed.

Lemma headingLoop_split_witness :
  let h t n := mkElement n t None [] (Some 0%nat) (js "x")
                 (mkComputedStyle [] []) None in
  fst (headingLoop true ([h H1 1%nat; h H3 2%nat] ++ h H2 3%nat
                         :: [h H4 4%nat]))
  = fst (headingLoop true ([h H1 1%nat; h H3 2%nat] ++ [h H2 3%nat]))
    ++ fst (headingLoop true (h H2 3%nat :: [h H4 4%nat])).
Proof.
  intros h. apply headingLoop_split. repeat constructor.
Defined.

(** ** More on the background walk *)

Lemma notTransparent_white : notTransparent white = true.
Proof. reflexivity. Qed.

(** X6.  [getBackgroundColor] never returns the empty string, the string
    [transparent] or the string [rgba(0, 0, 0, 0)].  What it returns is
    either white, or the computed background of the element or of one of
    its ancestors, and never that of the root element; for the root element
    itself it returns white. *)
Theorem getBackgroundColor_provenance (doc : Document) (el : Element) :
  notTransparent (getBackgroundColor doc el) = true
  /\ (getBackgroundColor doc el = white
      \/ exists e,
           In e (ancestorsOrSelf el)
           /\ nodeId e <> nodeId (documentElement doc)
           /\ getBackgroundColor doc el
              = backgroundColor (getComputedStyle e))
  /\ (nodeId el = nodeId (documentElement doc) ->
      getBackgroundColor doc el = white).
Proof.
  unfold getBackgroundColor. set (root := nodeId (documentElement doc)).
  split; [|split].
  - induction el as [e Hpar|e parent Hpar IH] using Element_chain_ind;
      rewrite walkBackground_unfold, Hpar;
      destruct (Nat.eqb (nodeId e) root); try exact notTransparent_white;
      destruct (notTransparent (backgroundColor (getComputedStyle e)))
        eqn:Ebg;
      first [exact Ebg | exact notTransparent_white | exact IH].
  - rewrite walkBackground_first.
    destruct (find (walkStops root) (ancestorsOrSelf el)) as [e|] eqn:Ef;
      [|now left].
    apply find_some in Ef as [Hin _].
    destruct (Nat.eqb (nodeId e) root) eqn:Er; [now left|].
    right. exists e. apply Nat.eqb_neq in Er. auto.
  - intros H. rewrite walkBackground_unfold.
    now apply Nat.eqb_eq in H as ->.
Qed.

(** ** More on the colour model *)

Lemma byte_threshold :
  forallb (fun n => Bool.eqb (Z2float (Z.of_nat n) / 255 <=? 0.03928)%float
                      (Nat.leb n 10))
    (seq 0 256) = true.
Proof. vm_compute. reflexivity. Qed.

Section TransferFacts.

Variable Math_pow : float -> float -> float.

(** X7.  On the intensity of a channel value from 0 to 255 the transfer
    function takes its linear branch exactly for the values 0 to 10, and
    calls [Math.pow] for the values 11 to 255. *)
Theorem transfer_branch (z : Z) :
  (0 <= z <= 255)%Z ->
  transfer Math_pow (Z2float z / 255)
  = if (z <=? 10)%Z then (Z2float z / 255 / 12.92)%float
    else Math_pow ((Z2float z / 255 + 0.055) / 1.055)%float 2.4%float.
Proof.
  intros B. pose proof byte_threshold as H.
  rewrite forallb_forall in H. specialize (H (Z.to_nat z)).
  rewrite Z2Nat.id in H by lia.
  assert (Hin : In (Z.to_nat z) (seq 0 256)) by (apply in_seq; lia).
  apply H in Hin. apply Bool.eqb_prop in Hin.
  unfold transfer. rewrite Hin.
  destruct (Z.leb_spec z 10); destruct (Nat.leb_spec (Z.to_nat z) 10);
    try reflexivity; lia.
Qed.

End TransferFacts.

Lemma transfer_branch_witness :
  transfer samplePow (Z2float 10 / 255) = (Z2float 10 / 255 / 12.92)%float.
Proof. apply (transfer_branch samplePow (z := 10)). lia. Defined.

(** ** Colours the script does not parse *)

Section UnparsedColours.

Variable Math_pow : float -> float -> float.
Hypothesis Math_pow_one : Math_pow 1 2.4 = 1%float.

Lemma getLuminance_default (s : jsstring) :
  parseRgb s = [1; 1; 1]%float -> getLuminance Math_pow s = 1%float.
Proof.
  intros E. unfold getLuminance. rewrite E. cbn [map nth].
  rewrite transfer_one, Math_pow_one. reflexivity.
Qed.

(** X8.  With a [Math.pow] that is exact at base 1: a text-bearing element
    of the document whose [offsetParent] is not null, whose text is not
    only white space and whose text colour the expression does not match
    is reported whenever its resolved background is the default white or
    is not matched either, whatever the colour really is. *)
Theorem unparsed_colours_reported (doc : Document) (el : Element) :
  In el (allElements doc) -> In (tag el) textTags ->
  offsetParent el <> None ->
  forallb isWhiteSpace (textContent el) = false ->
  String_match rgbRegex (color (getComputedStyle el)) = None ->
  getBackgroundColor doc el = white
  \/ String_match rgbRegex (getBackgroundColor doc el) = None ->
  In el (map element (checkContrast Math_pow doc)).
Proof.
  intros Hall Htag Hbox Htext Hcol Hbg.
  apply checkContrast_In. split; [exact Hall|]. split; [exact Htag|].
  rewrite contrastFlagged_unfold. destruct (offsetParent el); [|congruence].
  rewrite Htext. cbn [negb andb].
  rewrite (getLuminance_default _ (parseRgb_no_match _ Hcol)).
  assert (Hl : getLuminance Math_pow (getBackgroundColor doc el) = 1%float).
  { apply getLuminance_default. destruct Hbg as [->|Hbg].
    - exact parseRgb_white.
    - now apply parseRgb_no_match. }
  rewrite Hl. reflexivity.
Qed.

End UnparsedColours.

Lemma unparsed_colours_reported_witness :
  In sampleOklchParagraph
    (map element (checkContrast samplePow sampleOklchDocument)).
Proof.
  apply (@unparsed_colours_reported samplePow eq_refl sampleOklchDocument
           sampleOklchParagraph).
  - simpl. auto.
  - simpl. auto.
  - discriminate.
  - reflexivity.
  - reflexivity.
  - left. reflexivity.
Defined.

(** ** More on the highlighter *)

(** X9.  While less than two seconds have passed since a single activation
    on a page without pending timers, the element carries the highlight,
    its timer is pending, the element has been scrolled to, and no other
    element has changed. *)
Theorem highlight_pending (w : Highlighter.Page) (e : nat) (dt : Z) :
  Highlighter.timers w = [] -> (0 <= dt < 2000)%Z ->
  let w' := Highlighter.run
              [Highlighter.Activate e; Highlighter.Elapse dt] w in
  Highlighter.style w' e = Highlighter.highlight
  /\ (forall x, x <> e -> Highlighter.style w' x = Highlighter.style w x)
  /\ List.length (Highlighter.timers w') = 1%nat
  /\ Highlighter.scrolledTo w' = Highlighter.scrolledTo w ++ [e].
Proof.
  intros Ht Hdt w'. subst w'.
  assert (D : forall o b,
             Highlighter.isDue (Highlighter.now w + dt)
               (Highlighter.mkTimer (Highlighter.now w + 2000) e o b)
             = false).
  { intros. unfold Highlighter.isDue. simpl. apply Z.leb_gt. lia. }
  unfold Highlighter.run. cbn [fold_left Highlighter.step].
  unfold Highlighter.elapse, Highlighter.highlightElement.
  cbn [Highlighter.timers Highlighter.now Highlighter.style
       Highlighter.scrolledTo].
  rewrite Ht. cbn [app filter]. rewrite D. cbn [negb fold_left].
  cbn [Highlighter.timers Highlighter.now Highlighter.style
       Highlighter.scrolledTo List.length].
  repeat split.
  - apply setStyle_same.
  - intros x Hx. now apply setStyle_other.
Qed.

Lemma highlight_pending_witness :
  Highlighter.style
    (Highlighter.run [Highlighter.Activate 7; Highlighter.Elapse 1999]
       samplePage) 7
  = Highlighter.highlight.
Proof.
  apply (@highlight_pending samplePage 7 1999 eq_refl). lia.
Defined.

Lemma highlight_then_restore_witness :
  Highlighter.style
    (Highlighter.run
       [Highlighter.Activate 7; Highlighter.Remove 7; Highlighter.Elapse 2000]
       samplePage) 7
  = Highlighter.style samplePage 7.
Proof.
  refine (proj1 (@highlight_then_restore samplePage 7 2000 true eq_refl _)).
  lia.
Defined.

Lemma highlight_overlap_sticks_witness :
  Highlighter.style
    (Highlighter.run
       [ Highlighter.Activate 7; Highlighter.Elapse 1999;
         Highlighter.Activate 7; Highlighter.Elapse 2000 ] samplePage) 7
  = Highlighter.highlight.
Proof.
  apply (@highlight_overlap_sticks samplePage 7 1999 eq_refl). lia.
Defined.

(** X12.  Activations of two different elements less than two seconds apart
    do not disturb each other: once both timers have run, each of the two
    elements has had written back to its [style.outline] and
    [style.backgroundColor] the strings read from it before its own
    highlight, nothing was written to any other element and no timer is
    left. *)
Theorem highlight_two_elements (w : Highlighter.Page) (e1 e2 : nat)
  (dt : Z) :
  Highlighter.timers w = [] -> (0 <= dt < 2000)%Z -> e1 <> e2 ->
  let final :=
    Highlighter.run
      [ Highlighter.Activate e1; Highlighter.Elapse dt;
        Highlighter.Activate e2; Highlighter.Elapse 2000 ] w in
  (forall x, Highlighter.style final x = Highlighter.style w x)
  /\ Highlighter.timers final = [].
Proof.
  intros Ht Hdt Hne final. subst final.
  assert (D1 : forall o b,
             Highlighter.isDue (Highlighter.now w + dt)
               (Highlighter.mkTimer (Highlighter.now w + 2000) e1 o b)
             = false).
  { intros. unfold Highlighter.isDue. simpl. apply Z.leb_gt. lia. }
  assert (D2 : forall o b,
             Highlighter.isDue (Highlighter.now w + dt + 2000)
               (Highlighter.mkTimer (Highlighter.now w + 2000) e1 o b)
             = true).
  { intros. unfold Highlighter.isDue. simpl. apply Z.leb_le. lia. }
  assert (D3 : forall o b,
             Highlighter.isDue (Highlighter.now w + dt + 2000)
               (Highlighter.mkTimer (Highlighter.now w + dt + 2000) e2 o b)
             = true).
  { intros. unfold Highlighter.isDue. simpl. apply Z.leb_le. lia. }
  unfold Highlighter.run. cbn [fold_left Highlighter.step].
  unfold Highlighter.elapse, Highlighter.highlightElement.
  cbn [Highlighter.timers Highlighter.now Highlighter.style].
  rewrite Ht. cbn [app filter]. rewrite D1.
  cbn [negb fold_left app filter Highlighter.timers Highlighter.now
       Highlighter.style].
  rewrite D2, D3. cbn [negb fold_left].
  unfold Highlighter.restore.
  cbn [Highlighter.style Highlighter.timers Highlighter.el
       Highlighter.oldOutline Highlighter.oldBg].
  split; [|reflexivity].
  intros x. unfold Highlighter.setStyle.
  destruct (Nat.eqb x e2) eqn:E2.
  - apply Nat.eqb_eq in E2. subst x.
    assert (E1 : Nat.eqb e2 e1 = false) by (apply Nat.eqb_neq; congruence).
    rewrite E1. now destruct (Highlighter.style w e2).
  - destruct (Nat.eqb x e1) eqn:E1; [|reflexivity].
    apply Nat.eqb_eq in E1. subst x. now destruct (Highlighter.style w e1).
Qed.

Lemma highlight_two_elements_witness :
  Highlighter.timers
    (Highlighter.run
       [ Highlighter.Activate 7; Highlighter.Elapse 500;
         Highlighter.Activate 8; Highlighter.Elapse 2000 ] samplePage)
  = [].
Proof.
  apply (@highlight_two_elements samplePage 7 8 500 eq_refl); [lia|].
  discriminate.
Defined.

(** ** More on the entries of a report section *)

Lemma flat_map_nth_seq {A B} (g : A -> B) (l : list A) :
  forall (pre : list A),
    flat_map (fun a => match nth_error (pre ++ l) a with
                       | Some o => [g o]
                       | None => []
                       end)
      (seq (List.length pre) (List.length l))
    = map g l.
Proof.
  induction l as [|x l IH]; intros pre; [reflexivity|].
  cbn [List.length seq flat_map map].
  rewrite nth_error_app2 by lia. rewrite Nat.sub_diag. cbn [nth_error app].
  f_equal. specialize (IH (pre ++ [x])).
  rewrite length_app, Nat.add_1_r, <- app_assoc in IH. exact IH.
Qed.

Lemma flat_map_nth_seq0 {A B} (g : A -> B) (l : list A) :
  flat_map (fun a => match nth_error l a with
                     | Some o => [g o]
                     | None => []
                     end)
    (seq 0 (List.length l))
  = map g l.
Proof. exact (flat_map_nth_seq g l []). Qed.

Lemma entriesFrom_texts fmt (l : list Issue) :
  forall k, map ReportSection.li_textContent (entriesFrom fmt k l) = map fmt l.
Proof.
  induction l as [|x l IH]; intros k; simpl; [reflexivity|now rewrite IH].
Qed.

Lemma entriesFrom_listeners fmt (l : list Issue) :
  forall k,
    Forall (fun o => List.length (ReportSection.clickListeners o) = 1%nat
                     /\ List.length (ReportSection.keydownListeners o) = 1%nat)
      (entriesFrom fmt k l).
Proof.
  induction l as [|x l IH]; intros k; simpl; constructor; auto.
Qed.

(** X13.  The list [createSection] builds has one entry per issue, in the
    order of the issues; the text of each entry is what the formatting
    callback returns for its issue, and each entry carries exactly one
    click listener and one keydown listener. *)
Theorem createSection_entries (formatIssueFn : Issue -> jsstring)
  (issues : list Issue) :
  entryTexts (ReportSection.createSection formatIssueFn issues)
  = map formatIssueFn issues
  /\ List.length
       (ReportSection.children
          (ReportSection.createSection formatIssueFn issues))
     = List.length issues
  /\ Forall (fun o => List.length (ReportSection.clickListeners o) = 1%nat
                      /\ List.length (ReportSection.keydownListeners o)
                         = 1%nat)
       (ReportSection.lis (ReportSection.createSection formatIssueFn issues)).
Proof.
  rewrite createSection_heapAfter. unfold entryTexts.
  cbn [heapAfter ReportSection.lis ReportSection.children].
  split; [|split].
  - rewrite <- (entriesFrom_length formatIssueFn issues 0) at 1.
    rewrite (flat_map_nth_seq0 ReportSection.li_textContent
               (entriesFrom formatIssueFn 0 issues)).
    apply entriesFrom_texts.
  - apply length_seq.
  - apply entriesFrom_listeners.
Qed.

(** X14.  A key press on an entry calls [preventDefault] exactly when the
    key is Enter or the space key. *)
Theorem keydown_prevents_default (formatIssueFn : Issue -> jsstring)
  (issues : list Issue) (k : nat) (issue : Issue) (key : jsstring) :
  nth_error issues k = Some issue ->
  keydownPrevents (ReportSection.createSection formatIssueFn issues) k key
  = true
  <-> key = js "Enter" \/ key = js " ".
Proof.
  intros Hk. rewrite createSection_heapAfter.
  assert (Hlt : (k < List.length issues)%nat)
    by (apply nth_error_Some; congruence).
  assert (Hchild : nth_error (seq 0 (List.length issues)) k = Some k).
  { rewrite nth_error_nth' with (d := 0%nat) by (now rewrite length_seq).
    now rewrite seq_nth. }
  assert (Hli := entriesFrom_nth formatIssueFn issues 0 k Hk).
  unfold keydownPrevents.
  cbn [heapAfter ReportSection.children ReportSection.lis].
  rewrite Hchild, Hli.
  cbn [Nat.add entry ReportSection.keydownListeners existsb].
  unfold ReportSection.invoke. cbn [heapAfter ReportSection.scopes].
  rewrite nth_error_map, Hk. cbn [option_map].
  rewrite orb_false_r, <- !jsstring_eqb_eq.
  destruct (jsstring_eqb key (js "Enter")), (jsstring_eqb key (js " "));
    simpl; intuition discriminate.
Qed.

Lemma keydown_prevents_default_witness :
  keydownPrevents
    (ReportSection.createSection formatIssue
       [AltIssue sampleHtml []; AltIssue samplePlainBody []]) 1 (js " ")
  = true
  <-> js " " = js "Enter" \/ js " " = js " ".
Proof.
  apply (@keydown_prevents_default formatIssue
           [AltIssue sampleHtml []; AltIssue samplePlainBody []] 1
           (AltIssue samplePlainBody []) (js " ") eq_refl).
Defined.

(** ** The sections of the report *)

Lemma renderSection_entryCount title issues fmt advice :
  entryCount (renderSection title issues fmt advice) = List.length issues.
Proof.
  unfold entryCount, renderSection. cbn [issueList].
  destruct issues as [|x issues]; [reflexivity|].
  cbn [List.length Nat.eqb].
  rewrite createSection_heapAfter. cbn [heapAfter ReportSection.children].
  apply length_seq.
Qed.

Lemma renderSection_pass title issues fmt advice :
  (passMessage (renderSection title issues fmt advice)
   = Some (js "No issues found!")
   /\ countText (renderSection title issues fmt advice) = js "Pass"
   /\ issueList (renderSection title issues fmt advice) = None
   /\ adviceBox (renderSection title issues fmt advice) = None
   /\ issues = [])
  \/ (passMessage (renderSection title issues fmt advice) = None
      /\ issueList (renderSection title issues fmt advice)
         = Some (ReportSection.createSection fmt issues)
      /\ adviceBox (renderSection title issues fmt advice) = Some advice
      /\ issues <> []).
Proof.
  destruct issues as [|x issues]; [left|right]; repeat split; discriminate.
Qed.

Section ReportFacts.

Variable Math_pow : float -> float -> float.

Lemma renderSection_shows (title : jsstring) (issues : list Issue)
  (pre post : jsstring) :
  sectionShows
    (renderSection title issues formatIssue
       (pre ++ numToString (Some (Z.of_nat (List.length issues))) ++ post))
    title issues.
Proof.
  unfold sectionShows. split; [reflexivity|].
  destruct issues as [|x issues]; [repeat split|].
  set (l := x :: issues).
  assert (Hn : Nat.eqb (List.length l) 0 = false) by reflexivity.
  unfold renderSection.
  cbn [countText passMessage issueList adviceBox]. rewrite Hn.
  split; [|split; [|split; [|split; [|split]]]].
  - intros ->. reflexivity.
  - intros H. now apply Nat.eqb_neq in H as ->.
  - intros H. apply (f_equal (@List.length N)) in H.
    rewrite length_app in H.
    destruct (Nat.eqb (List.length l) 1); simpl in H; lia.
  - reflexivity.
  - eexists. split; [reflexivity|].
    rewrite createSection_heapAfter. unfold entryTexts.
    cbn [heapAfter ReportSection.lis ReportSection.children].
    rewrite <- (entriesFrom_length formatIssue l 0) at 1.
    rewrite (flat_map_nth_seq0 ReportSection.li_textContent
               (entriesFrom formatIssue 0 l)).
    apply entriesFrom_texts.
  - exists pre, post. reflexivity.
Qed.

(** X15.  The panel body has three sections, for the alt-text scan, the
    heading scan and the contrast scan in this order, each with its title.
    A section whose scan found nothing shows the badge [Pass] and the
    message [No issues found!], and neither a list nor advice.  A section
    whose scan found something shows the number of findings as its badge
    ([1 issue], or the number followed by [issues]), which is never
    [Pass], no pass message, a list whose entries are the formatted
    findings of that scan in order, and an advice that names the number.
    The entries of the three sections add up to the total shown in the
    header. *)
Theorem report_sections_total (doc : Document) :
  exists s1 s2 s3,
    reportSections Math_pow doc = [s1; s2; s3]
    /\ sectionShows s1 (js "Missing Alt Text") (checkAltText doc)
    /\ sectionShows s2 (js "Heading Hierarchy") (checkHeadings doc)
    /\ sectionShows s3 (js "Contrast Warnings") (checkContrast Math_pow doc)
    /\ (entryCount s1 + entryCount s2 + entryCount s3)%nat
       = totalIssues Math_pow doc.
Proof.
  unfold reportSections. cbv zeta. do 3 eexists.
  split; [reflexivity|].
  split; [apply renderSection_shows|].
  split; [apply renderSection_shows|].
  split; [apply renderSection_shows|].
  rewrite !renderSection_entryCount. reflexivity.
Qed.

End ReportFacts.

(** ** More on the life cycle of the report panel *)

Lemma removeId_notin (k : nat) (l : list nat) :
  ~ In k l -> Overlay.removeId k l = l.
Proof.
  induction l as [|x l IH]; intros H; simpl; [reflexivity|].
  destruct (Nat.eqb_spec x k) as [->|Hne]; simpl.
  - exfalso. apply H. now left.
  - rewrite IH; [reflexivity|]. intros Hin. apply H. now right.
Qed.

Lemma removeId_head (k : nat) (l : list nat) :
  NoDup (k :: l) -> Overlay.removeId k (k :: l) = l.
Proof.
  intros H. inversion H; subst. simpl. rewrite Nat.eqb_refl. simpl.
  now apply removeId_notin.
Qed.

Lemma handleEsc_no_panel (key : jsstring) (d : Overlay.Page) (k : nat) :
  Overlay.panels d = [] -> Overlay.handleEsc key d k = d.
Proof.
  intros H. unfold Overlay.handleEsc. rewrite H.
  now destruct (jsstring_eqb key (js "Escape")).
Qed.

Lemma handleEsc_other_key (key : jsstring) (d : Overlay.Page) (k : nat) :
  key <> js "Escape" -> Overlay.handleEsc key d k = d.
Proof.
  intros H. unfold Overlay.handleEsc.
  destruct (jsstring_eqb key (js "Escape")) eqn:E; [|reflexivity].
  apply jsstring_eqb_eq in E. contradiction.
Qed.

Lemma fold_handleEsc_fixed (key : jsstring) (ls : list nat) (d : Overlay.Page) :
  (forall k, Overlay.handleEsc key d k = d) ->
  fold_left (Overlay.handleEsc key) ls d = d.
Proof.
  intros H. induction ls as [|k ls IH]; simpl; [reflexivity|].
  now rewrite H.
Qed.

Lemma handleEsc_invariant (key : jsstring) (d : Overlay.Page) (k : nat) :
  overlayInvariant d ->
  overlayInvariant (Overlay.handleEsc key d k)
  /\ Overlay.runs (Overlay.handleEsc key d k) = Overlay.runs d
  /\ Overlay.styleEls (Overlay.handleEsc key d k) = Overlay.styleEls d.
Proof.
  intros (Hp & Hn & Hf & Hl). unfold Overlay.handleEsc.
  destruct (jsstring_eqb key (js "Escape"));
    [|split; [unfold overlayInvariant; auto|split; reflexivity]].
  destruct (Overlay.panels d) as [|p rest] eqn:E;
    [split; [unfold overlayInvariant; rewrite E; auto|split; reflexivity]|].
  split; [|split; reflexivity].
  unfold overlayInvariant. cbn [Overlay.panels Overlay.keydownListeners
                                Overlay.runs Overlay.styleEls].
  simpl in Hp. assert (rest = []) by (destruct rest; [reflexivity|simpl in Hp; lia]).
  subst rest. repeat split.
  - simpl. lia.
  - now apply NoDup_filter.
  - unfold Overlay.removeId. rewrite Forall_forall in *.
    intros x Hx. apply filter_In in Hx as [Hx _]. auto.
  - simpl. lia.
Qed.

Lemma pressKey_invariant (key : jsstring) (ls : list nat) :
  forall d,
    overlayInvariant d ->
    overlayInvariant (fold_left (Overlay.handleEsc key) ls d)
    /\ Overlay.runs (fold_left (Overlay.handleEsc key) ls d) = Overlay.runs d
    /\ Overlay.styleEls (fold_left (Overlay.handleEsc key) ls d)
       = Overlay.styleEls d.
Proof.
  induction ls as [|k ls IH]; intros d H; simpl; [auto|].
  destruct (handleEsc_invariant key k H) as (H1 & H2 & H3).
  destruct (IH _ H1) as (I1 & I2 & I3).
  split; [exact I1|split; congruence].
Qed.

Lemma step_invariant (d : Overlay.Page) (ev : Overlay.Event) :
  overlayInvariant d -> overlayInvariant (Overlay.step d ev).
Proof.
  intros H. destruct ev as [|k|key]; cbn [Overlay.step].
  - destruct H as (Hp & Hn & Hf & Hl). unfold overlayInvariant.
    cbn [Overlay.runScript Overlay.panels Overlay.keydownListeners
         Overlay.runs].
    repeat split.
    + rewrite length_app. destruct (Overlay.panels d) as [|p [|q rest]];
        simpl in *; lia.
    + apply NoDup_app; [assumption|repeat constructor; intros []|].
      intros x Hx [<-|[]]. rewrite Forall_forall in Hf.
      specialize (Hf _ Hx). lia.
    + apply Forall_app. split.
      * eapply Forall_impl; [|exact Hf]. simpl. lia.
      * repeat constructor.
    + rewrite !length_app. destruct (Overlay.panels d) as [|p [|q rest]];
        simpl in *; lia.
  - destruct H as (Hp & Hn & Hf & Hl). unfold overlayInvariant.
    cbn [Overlay.clickClose Overlay.panels Overlay.keydownListeners
         Overlay.runs].
    pose proof (removeId_length k (Overlay.panels d)).
    repeat split; try assumption; lia.
  - now apply pressKey_invariant.
Qed.

Lemma run_invariant (evs : list Overlay.Event) :
  overlayInvariant (Overlay.run evs).
Proof.
  unfold Overlay.run.
  assert (H : forall d, overlayInvariant d ->
                        overlayInvariant (fold_left Overlay.step evs d)).
  { induction evs as [|ev evs IH]; intros d Hd; simpl; [assumption|].
    apply IH. now apply step_invariant. }
  apply H. unfold overlayInvariant. simpl.
  repeat split; try lia; constructor.
Qed.

(** X17.  Whatever the events so far, pressing Escape leaves no panel in
    the document.  When a panel was mounted, exactly one keydown listener
    goes with it, the one registered first; without a panel the press
    changes nothing; and a press of any other key changes nothing. *)
Theorem escape_closes_panel (evs : list Overlay.Event) :
  Overlay.panels (Overlay.pressKey (js "Escape") (Overlay.run evs)) = []
  /\ (Overlay.panels (Overlay.run evs) <> [] ->
      Overlay.keydownListeners (Overlay.run evs) <> []
      /\ Overlay.keydownListeners
           (Overlay.pressKey (js "Escape") (Overlay.run evs))
         = tl (Overlay.keydownListeners (Overlay.run evs)))
  /\ (Overlay.panels (Overlay.run evs) = [] ->
      Overlay.pressKey (js "Escape") (Overlay.run evs) = Overlay.run evs)
  /\ (forall key, key <> js "Escape" ->
                  Overlay.pressKey key (Overlay.run evs) = Overlay.run evs).
Proof.
  pose proof (run_invariant evs) as (Hp & Hn & Hf & Hl).
  set (d := Overlay.run evs) in *.
  assert (Hnone : Overlay.panels d = [] ->
                  Overlay.pressKey (js "Escape") d = d).
  { intros E. unfold Overlay.pressKey. apply fold_handleEsc_fixed.
    intros k. now apply handleEsc_no_panel. }
  assert (Hsome : Overlay.panels d <> [] ->
            Overlay.keydownListeners d <> []
            /\ Overlay.panels (Overlay.pressKey (js "Escape") d) = []
            /\ Overlay.keydownListeners (Overlay.pressKey (js "Escape") d)
               = tl (Overlay.keydownListeners d)).
  { intros E. unfold Overlay.pressKey.
    destruct (Overlay.panels d) as [|p rest] eqn:Ep; [congruence|].
    destruct (Overlay.keydownListeners d) as [|l ls] eqn:El;
      [simpl in Hl; lia|].
    split; [discriminate|].
    assert (rest = [])
      by (destruct rest; [reflexivity|simpl in Hp; lia]).
    subst rest. cbn [fold_left].
    assert (E1 : Overlay.handleEsc (js "Escape") d l
                 = {| Overlay.panels := [];
                      Overlay.styleEls := Overlay.styleEls d;
                      Overlay.keydownListeners := ls;
                      Overlay.focused := Overlay.blur p (Overlay.focused d);
                      Overlay.runs := Overlay.runs d |}).
    { unfold Overlay.handleEsc. simpl jsstring_eqb. cbv iota.
      rewrite Ep, El. now rewrite removeId_head. }
    rewrite E1. rewrite fold_handleEsc_fixed.
    - split; reflexivity.
    - intros k. now apply handleEsc_no_panel. }
  split; [|split; [|split]].
  - destruct (Overlay.panels d) as [|p rest] eqn:Ep.
    + rewrite Hnone; auto.
    + apply Hsome. discriminate.
  - intros E. destruct (Hsome E) as (H1 & _ & H3). auto.
  - exact Hnone.
  - intros key Hkey. unfold Overlay.pressKey. apply fold_handleEsc_fixed.
    intros k. now apply handleEsc_other_key.
Qed.

(** X18.  Right after a scan the document holds exactly the panel of that
    scan, the panel has the focus and the listener of that scan is
    registered. *)
Theorem scan_mounts_newest_panel (evs : list Overlay.Event) :
  Overlay.panels (Overlay.run (evs ++ [Overlay.Scan]))
  = [Overlay.runs (Overlay.run evs)]
  /\ Overlay.focused (Overlay.run (evs ++ [Overlay.Scan]))
     = Some (Overlay.runs (Overlay.run evs))
  /\ In (Overlay.runs (Overlay.run evs))
       (Overlay.keydownListeners (Overlay.run (evs ++ [Overlay.Scan]))).
Proof.
  pose proof (run_invariant evs) as (Hp & _).
  unfold Overlay.run in *. rewrite fold_left_app.
  cbn [fold_left Overlay.step Overlay.runScript Overlay.panels
       Overlay.focused Overlay.keydownListeners].
  repeat split.
  - destruct (Overlay.panels (fold_left Overlay.step evs Overlay.initial))
      as [|p [|q rest]]; simpl in *; try reflexivity; lia.
  - apply in_or_app. right. now left.
Qed.

Lemma step_styleEls (d : Overlay.Page) (ev : Overlay.Event) :
  overlayInvariant d ->
  Overlay.styleEls (Overlay.step d ev)
  = if isScan ev
    then tl (Overlay.styleEls d) ++ [Overlay.runs d]
    else Overlay.styleEls d.
Proof.
  intros H. destruct ev as [|k|key]; cbn [Overlay.step isScan].
  - unfold Overlay.runScript. cbn [Overlay.styleEls].
    now destruct (Overlay.styleEls d).
  - reflexivity.
  - now apply pressKey_invariant.
Qed.

(** X19.  The style element the script injects is never removed when the
    panel is closed: from the first scan on the document holds exactly one
    such element, whatever happens to the panel, and none before. *)
Theorem style_element_stays (evs : list Overlay.Event) :
  List.length (Overlay.styleEls (Overlay.run evs))
  = if existsb isScan evs then 1%nat else 0%nat.
Proof.
  induction evs as [|ev evs IH] using rev_ind; [reflexivity|].
  pose proof (run_invariant evs) as Hinv.
  rewrite existsb_app. cbn [existsb]. rewrite orb_false_r.
  unfold Overlay.run in *. rewrite fold_left_app. cbn [fold_left].
  rewrite (step_styleEls ev Hinv).
  destruct (isScan ev).
  - rewrite orb_true_r, length_app. simpl.
    destruct (Overlay.styleEls (fold_left Overlay.step evs Overlay.initial))
      as [|x [|y rest]]; simpl in *; try reflexivity.
    destruct (existsb isScan evs); discriminate.
  - now rewrite orb_false_r.
Qed.

(** ** The popup *)

Lemma startsWith_app (p r : jsstring) : Popup.startsWith (p ++ r) p = true.
Proof.
  unfold Popup.startsWith. apply jsstring_eqb_eq.
  rewrite firstn_app, Nat.sub_diag, firstn_all. simpl. apply app_nil_r.
Qed.

Lemma isChromeUrl_prefix (t : Popup.Tab) (r : jsstring) :
  Popup.url t = Some (js "chrome://" ++ r) -> Popup.isChromeUrl t = true.
Proof.
  intros H. unfold Popup.isChromeUrl. rewrite H.
  change (js "chrome://" ++ r) with (99%N :: (js "hrome://" ++ r)).
  cbv iota. exact (startsWith_app (js "chrome://") r).
Qed.

Lemma tryBlock_injected (query : Popup.Settled (list Popup.Tab))
  (executeScript : nat -> Popup.Settled unit) :
  (exists tab rest i,
      query = Popup.Fulfilled (tab :: rest)
      /\ Popup.id tab = Some i /\ i <> 0%nat
      /\ Popup.isChromeUrl tab = false
      /\ Popup.tryBlock query executeScript = (executeScript i, [i]))
  \/ (snd (Popup.tryBlock query executeScript) = []
      /\ exists m, fst (Popup.tryBlock query executeScript)
                   = Popup.Rejected m).
Proof.
  destruct query as [tabs|m]; [|solve [right; simpl; eauto]].
  destruct tabs as [|tab rest]; [solve [right; simpl; eauto]|].
  unfold Popup.tryBlock. cbn [nth_error].
  destruct (Popup.id tab) as [[|i]|] eqn:Ei;
    try solve [right; simpl; eauto].
  destruct (Popup.isChromeUrl tab) eqn:Eu; [solve [right; simpl; eauto]|].
  left. exists tab, rest, (S i). repeat split; auto.
Qed.

(** X20.  The handler injects the content script at most once, and only
    into the first tab of the query result, and only if that tab has a
    non-zero id and no address that starts with [chrome://].  Under these
    conditions it does inject, whatever else the address is and also when
    the tab has no address. *)
Theorem popup_injects_only_regular_tab
  (query : Popup.Settled (list Popup.Tab))
  (executeScript : nat -> Popup.Settled unit) :
  (List.length (snd (Popup.onClick query executeScript)) <= 1)%nat
  /\ (forall i,
        In i (snd (Popup.onClick query executeScript))
        <-> exists tab rest,
              query = Popup.Fulfilled (tab :: rest)
              /\ Popup.id tab = Some i /\ i <> 0%nat
              /\ Popup.isChromeUrl tab = false)
  /\ (forall tab rest r,
        query = Popup.Fulfilled (tab :: rest) ->
        Popup.url tab = Some (js "chrome://" ++ r) ->
        snd (Popup.onClick query executeScript) = [])
  /\ (forall tab rest i,
        query = Popup.Fulfilled (tab :: rest) ->
        Popup.id tab = Some (S i) -> Popup.url tab = None ->
        snd (Popup.onClick query executeScript) = [S i]).
Proof.
  assert (Hsnd : snd (Popup.onClick query executeScript)
                 = snd (Popup.tryBlock query executeScript)).
  { unfold Popup.onClick. now destruct (Popup.tryBlock query executeScript). }
  rewrite Hsnd.
  destruct (tryBlock_injected query executeScript)
    as [(tab & rest & i & Eq & Eid & Hi & Eu & Et)|(Hnil & m & Hm)].
  - rewrite Et. cbn [snd]. split; [simpl; lia|]. split; [|split].
    + intros j. split.
      * intros [<-|[]]. exists tab, rest. auto.
      * intros (tab' & rest' & Eq' & Eid' & _).
        rewrite Eq in Eq'. injection Eq' as <- <-. left. congruence.
    + intros tab' rest' r Eq' Hurl. rewrite Eq in Eq'.
      injection Eq' as <- <-. apply isChromeUrl_prefix in Hurl. congruence.
    + intros tab' rest' j Eq' Eid' _. rewrite Eq in Eq'.
      injection Eq' as <- <-. congruence.
  - rewrite Hnil. split; [simpl; lia|]. split; [|split].
    + intros j. split; [intros []|].
      intros (tab & rest & Eq & Eid & Hj & Eu). subst query.
      unfold Popup.tryBlock in Hnil. cbn [nth_error] in Hnil.
      rewrite Eid, Eu in Hnil. destruct j; [congruence|discriminate].
    + reflexivity.
    + intros tab rest i Eq Eid Eurl. subst query.
      unfold Popup.tryBlock in Hnil. cbn [nth_error] in Hnil.
      unfold Popup.isChromeUrl in Hnil. rewrite Eid, Eurl in Hnil.
      discriminate.
Qed.

(** X21.  However the click ends, the button is enabled again and labelled
    [Run Audit].  The status is [success] exactly when the script was
    injected and the injection was fulfilled; otherwise it is [error] and
    the text starts with [Error: ], followed by the message of a rejected
    injection when that is what failed. *)
Theorem popup_final_view (query : Popup.Settled (list Popup.Tab))
  (executeScript : nat -> Popup.Settled unit) :
  Popup.btnDisabled (fst (Popup.onClick query executeScript)) = false
  /\ Popup.btnText (fst (Popup.onClick query executeScript)) = js "Run Audit"
  /\ (Popup.statusClass (fst (Popup.onClick query executeScript))
      = js "success"
      <-> exists i,
            snd (Popup.onClick query executeScript) = [i]
            /\ executeScript i = Popup.Fulfilled tt)
  /\ (Popup.statusClass (fst (Popup.onClick query executeScript))
      = js "success"
      \/ Popup.statusClass (fst (Popup.onClick query executeScript))
         = js "error"
         /\ firstn 7 (Popup.statusText
                        (fst (Popup.onClick query executeScript)))
            = js "Error: ")
  /\ (forall i m,
        snd (Popup.onClick query executeScript) = [i] ->
        executeScript i = Popup.Rejected m ->
        Popup.statusText (fst (Popup.onClick query executeScript))
        = js "Error: " ++ m).
Proof.
  unfold Popup.onClick.
  destruct (tryBlock_injected query executeScript)
    as [(tab & rest & i & Eq & Eid & Hi & Eu & Et)|(Hnil & m & Hm)].
  - rewrite Et. destruct (executeScript i) as [[]|m] eqn:Ex;
      cbn [fst snd Popup.btnDisabled Popup.btnText Popup.statusClass
           Popup.statusText].
    + repeat split; auto.
      * intros _. exists i. auto.
      * intros j m' [= <-] Hj. congruence.
    + repeat split; auto.
      * discriminate.
      * intros (j & [= <-] & Hj). congruence.
      * intros j m' [= <-] Hj. congruence.
  - destruct (Popup.tryBlock query executeScript) as [outcome injected].
    cbn [fst snd] in *. subst outcome injected.
    cbn [fst snd Popup.btnDisabled Popup.btnText Popup.statusClass
         Popup.statusText].
    repeat split; auto.
    + discriminate.
    + intros (j & Hj & _). discriminate.
    + intros j m' Hj. discriminate.
Qed.

(** ** Colour notations other than [rgb()] *)

Lemma matchHere_rgb_needs_g (s : jsstring) :
  ~ In 103%N s -> matchHere rgbRegex [] s = None.
Proof.
  intros H. unfold rgbRegex.
  destruct s as [|a [|b s]]; cbn [matchHere]; try reflexivity.
  - now destruct (N.eqb a 114).
  - destruct (N.eqb a 114); [|reflexivity].
    destruct (N.eqb_spec b 103) as [->|_]; [|reflexivity].
    exfalso. apply H. simpl. auto.
Qed.

Lemma String_match_rgb_needs_g (s : jsstring) :
  ~ In 103%N s -> String_match rgbRegex s = None.
Proof.
  induction s as [|c s IH]; intros H.
  - reflexivity.
  - cbn [String_match]. rewrite (@matchHere_rgb_needs_g (c :: s) H).
    apply IH. intros Hin. apply H. now right.
Qed.

Section OtherNotations.

Variable Math_pow : float -> float -> float.

(** X22.  A colour string without the letter [g] (a hexadecimal colour, an
    [hsl()], [lab()] or [oklch()] colour, the keyword [transparent]) is
    parsed as white, and has the luminance of white, whatever colour it
    denotes. *)
Theorem colours_without_g_are_white (s : jsstring) :
  ~ In 103%N s ->
  parseRgb s = [1; 1; 1]%float
  /\ getLuminance Math_pow s = getLuminance Math_pow white.
Proof.
  intros H. apply String_match_rgb_needs_g in H.
  split; [now apply parseRgb_no_match|].
  apply getLuminance_parseRgb.
  rewrite (parseRgb_no_match s H). symmetry. exact parseRgb_white.
Qed.

(** X23.  Every finding of the contrast scan is for a scanned element with
    a layout box and non-blank text; it records the computed text colour of
    the element and the background [getBackgroundColor] resolves for it,
    and the luminances of these two exceed 0.7 and 0.9.  There are at most
    as many findings as scanned elements. *)
Theorem checkContrast_findings_payload (doc : Document) :
  (forall f,
      In f (checkContrast Math_pow doc) ->
      exists el,
        f = ContrastIssue el (color (getComputedStyle el))
              (getBackgroundColor doc el)
        /\ In el (querySelectorAll sel_text doc)
        /\ offsetParent el <> None
        /\ trim (textContent el) <> []
        /\ lightOnLight
             (getLuminance Math_pow (color (getComputedStyle el)))
             (getLuminance Math_pow (getBackgroundColor doc el)) = true)
  /\ (List.length (checkContrast Math_pow doc)
      <= List.length (querySelectorAll sel_text doc))%nat.
Proof.
  rewrite checkContrast_filter. split.
  - intros f Hin. apply in_map_iff in Hin as (el & <- & Hin).
    apply filter_In in Hin as [Hscan Hflag].
    exists el. split; [reflexivity|]. split; [exact Hscan|].
    unfold contrastFlagged in Hflag.
    destruct (offsetParent el); [|discriminate].
    apply andb_true_iff in Hflag as [Ht Hl].
    repeat split; try discriminate; [|exact Hl].
    intros E. apply jsstring_eqb_nil in E. rewrite E in Ht. discriminate.
  - rewrite length_map. apply filter_length_le.
Qed.

End OtherNotations.

Lemma colours_without_g_are_white_witness :
  parseRgb (js "#1a2b3c") = [1; 1; 1]%float.
Proof.
  apply (@colours_without_g_are_white samplePow (js "#1a2b3c")).
  simpl. intros H.
  repeat (destruct H as [H|H]; [discriminate|]). contradiction.
Defined.
